(** * Office-hour bot: help queue, command dispatcher and handler-map composer

    A shallow embedding of

    - [src/help-queue/help-queue.ts] (class [HelpQueueV2]),
    - the central command dispatcher (class [CentralCommandDispatcher]),
    - the generic interaction processors and [combineMethodMaps],

    together with the properties the specification states about them. *)

From Stdlib Require Import ZArith Lia.
From stdpp Require Import gmap strings list fin_maps.
From stdpp Require Import pretty.

(** ** Promises over a mutable store

    Every method of the sources is [async]: it either resolves with a value
    or rejects with an error, and it may have mutated the object it belongs
    to before doing either.  A computation is therefore a function from the
    store to a settled result and the store it leaves behind; a rejection
    keeps the store as it was at the point of rejection. *)

Module Async.

Inductive Settled (E A : Type) : Type :=
| Resolved (a : A)
| Rejected (e : E).
Arguments Resolved {E A} a.
Arguments Rejected {E A} e.

Definition Promise (S E A : Type) : Type := S -> Settled E A * S.

Definition resolve {S E A} (a : A) : Promise S E A :=
  fun s => (Resolved a, s).

Definition reject {S E A} (e : E) : Promise S E A :=
  fun s => (Rejected e, s).

Definition bind {S E A B} (m : Promise S E A) (k : A -> Promise S E B)
  : Promise S E B :=
  fun s =>
    match m s with
    | (Resolved a, s') => k a s'
    | (Rejected e, s') => (Rejected e, s')
    end.

(** [p.catch(h)] *)
Definition catch {S E A} (m : Promise S E A) (h : E -> Promise S E A)
  : Promise S E A :=
  fun s =>
    match m s with
    | (Resolved a, s') => (Resolved a, s')
    | (Rejected e, s') => h e s'
    end.

Definition get {S E} : Promise S E S := fun s => (Resolved s, s).
Definition put {S E} (s : S) : Promise S E unit := fun _ => (Resolved tt, s).
Definition modify {S E} (f : S -> S) : Promise S E unit :=
  fun s => (Resolved tt, f s).

(** [Promise.all([a, b])]: both promises are started, in that order, and
    both run to their end; the result rejects when either does.  When both
    reject the source reports whichever rejected first in time; the
    embedding reports the first listed. *)
Definition all2 {S E} (a b : Promise S E unit) : Promise S E unit :=
  fun s =>
    match a s with
    | (Resolved _, s') => b s'
    | (Rejected e, s') => (Rejected e, snd (b s'))
    end.

(** A promise that is started and not awaited: what it does to the store
    happens, how it settles is never observed. *)
Definition detached {S E A} (m : Promise S E A) : Promise S E unit :=
  fun s => (Resolved tt, snd (m s)).

Definition settled {S E A} (r : Settled E A * S) : Settled E A := fst r.
Definition store {S E A} (r : Settled E A * S) : S := snd r.

Definition is_resolved {E A} (r : Settled E A) : bool :=
  match r with Resolved _ => true | Rejected _ => false end.

End Async.

Import Async.

Notation "'await!' x <- m ; k" := (bind m (fun x => k))
  (at level 10, x name, m at level 100, k at level 200,
   format "'[v' 'await!'  x  <-  m ; '/' k ']'").
Notation "'do!' m ; k" := (bind m (fun _ => k))
  (at level 10, m at level 100, k at level 200,
   format "'[v' 'do!'  m ; '/' k ']'").

(** [map.has(key)] on a discord.js [Collection] or a JS [Map]. *)
Definition has {V} (m : gmap string V) (k : string) : bool :=
  match m !! k with Some _ => true | None => false end.

(** * The help queue *)

Module HelpQueue.

(** The part of a discord.js [GuildMember] the queue reads. *)
Record GuildMember := { id : string; displayName : string }.

(** [models/member-states]: dates are milliseconds since the epoch. *)
Module Helper.
Record t := {
  helpStart : Z;
  helpEnd : option Z;
  helpedMembers : list GuildMember;
  member : GuildMember
}.
End Helper.

Module Helpee.
Record t := {
  waitStart : Z;
  upNext : bool;
  member : GuildMember
}.
End Helpee.

(** One entry of [QueueBackup.studentsInQueue], as the constructor reads it. *)
Record StudentBackup := {
  memberId : string;
  backupWaitStart : Z;
  backupUpNext : bool
}.

Record QueueBackup := { studentsInQueue : list StudentBackup }.

(** [QueueChannel]: [members] stands for [channelObj.members], keyed by
    member id. *)
Record QueueChannel := {
  members : gmap string GuildMember;
  queueName : string;
  parentCategoryId : string
}.

(** The private fields of [HelpQueueV2].  [helpers] and [notifGroup] are
    discord.js Collections keyed by [GuildMember.id]; nothing below reads
    their iteration order. *)
Record HelpQueueV2 := {
  helpers : gmap string Helper.t;
  students : list Helpee.t;
  notifGroup : gmap string GuildMember;
  isOpen : bool;
  queueChannel : QueueChannel
}.

Definition name (q : HelpQueueV2) : string := queueName (queueChannel q).
Definition length (q : HelpQueueV2) : nat := List.length (students q).
Definition currentlyOpen (q : HelpQueueV2) : bool := isOpen q.
Definition first (q : HelpQueueV2) : option Helpee.t := head (students q).

Definition set_helpers (h : gmap string Helper.t) (q : HelpQueueV2) :=
  {| helpers := h; students := students q; notifGroup := notifGroup q;
     isOpen := isOpen q; queueChannel := queueChannel q |}.
Definition set_students (l : list Helpee.t) (q : HelpQueueV2) :=
  {| helpers := helpers q; students := l; notifGroup := notifGroup q;
     isOpen := isOpen q; queueChannel := queueChannel q |}.
Definition set_notifGroup (g : gmap string GuildMember) (q : HelpQueueV2) :=
  {| helpers := helpers q; students := students q; notifGroup := g;
     isOpen := isOpen q; queueChannel := queueChannel q |}.
Definition set_isOpen (b : bool) (q : HelpQueueV2) :=
  {| helpers := helpers q; students := students q; notifGroup := notifGroup q;
     isOpen := b; queueChannel := queueChannel q |}.

(** What a method can reject with: a [QueueError(message, queueName)] of
    its own, or whatever an awaited collaborator rejected with. *)
Inductive Collaborator := Hooks | Renderer.

Inductive Rejection :=
| QueueError (message : string) (queueName : string)
| CollaboratorFailure (c : Collaborator).

(** What one call sees of the outside world: the clock ([new Date()]),
    whether the awaited fan-out of notifications and extension hooks
    resolves, and whether [triggerRender] (render, or the clean-up it
    falls back to) resolves. *)
Record Env := {
  now : Z;
  fanOutResolves : bool;
  renderResolves : bool
}.

Abbreviation Method A := (Promise HelpQueueV2 Rejection A).

(** The constructor: with backup data, every backed-up student that still
    has a corresponding channel member is pushed, in backup order. *)
Definition restore (queueChannel : QueueChannel) (backupData : QueueBackup)
  : list Helpee.t :=
  foldl
    (fun students studentBackup =>
       match members queueChannel !! memberId studentBackup with
       | Some correspondingMember =>
           students ++ [ {| Helpee.waitStart := backupWaitStart studentBackup;
                            Helpee.upNext := backupUpNext studentBackup;
                            Helpee.member := correspondingMember |} ]
       | None => students
       end)
    [] (studentsInQueue backupData).

Definition new (queueChannel : QueueChannel) (backupData : option QueueBackup)
  : HelpQueueV2 :=
  {| helpers := ∅;
     students := match backupData with
                 | Some b => restore queueChannel b
                 | None => []
                 end;
     notifGroup := ∅;
     isOpen := false;
     queueChannel := queueChannel |}.

(** [await Promise.all(...)] over hooks and notifications. *)
Definition awaitFanOut (env : Env) : Method unit :=
  if fanOutResolves env then resolve tt else reject (CollaboratorFailure Hooks).

Definition triggerRender (env : Env) : Method unit :=
  if renderResolves env then resolve tt
  else reject (CollaboratorFailure Renderer).

(** In [openQueue] the argument of [Promise.all] is an array of arrays (no
    [.flat()]), so the notifications and open-hooks are started but not
    awaited: they cannot reject the call. *)
Definition openQueue (env : Env) (helperMember : GuildMember) (notify : bool)
  : Method unit :=
  await! q <- get;
  if has (helpers q) (id helperMember) then
    reject (QueueError "Queue is already open" (name q))
  else
    let helper := {| Helper.helpStart := now env;
                     Helper.helpEnd := None;
                     Helper.helpedMembers := [];
                     Helper.member := helperMember |} in
    do! modify (set_isOpen true);
    do! modify (fun q => set_helpers (<[id helperMember := helper]> (helpers q)) q);
    triggerRender env.

Definition closeQueue (env : Env) (helperMember : GuildMember)
  : Method Helper.t :=
  await! q <- get;
  let helper := helpers q !! id helperMember in
  if negb (isOpen q) then
    reject (QueueError "Queue is already closed" (name q))
  else
    match helper with
    | None => reject (QueueError "You are not one of the helpers" (name q))
    | Some helper =>
        do! modify (fun q => set_helpers (delete (id helperMember) (helpers q)) q);
        do! modify (fun q => set_isOpen (bool_decide (0 < size (helpers q))) q);
        let helper := {| Helper.helpStart := Helper.helpStart helper;
                         Helper.helpEnd := Some (now env);
                         Helper.helpedMembers := Helper.helpedMembers helper;
                         Helper.member := Helper.member helper |} in
        do! awaitFanOut env;
        do! triggerRender env;
        resolve helper
    end.

Definition enqueue (env : Env) (studentMember : GuildMember) : Method unit :=
  await! q <- get;
  if negb (isOpen q) then
    reject (QueueError "Queue is not open." (name q))
  else if bool_decide
            (List.find (fun s => bool_decide (id (Helpee.member s) = id studentMember))
               (students q) <> None) then
    reject (QueueError "You are already in the queue." (name q))
  else if has (helpers q) (id studentMember) then
    reject (QueueError "You can't enqueue yourself while helping." (name q))
  else
    let student := {| Helpee.waitStart := now env;
                      Helpee.upNext := bool_decide (List.length (students q) = 0);
                      Helpee.member := studentMember |} in
    do! modify (fun q => set_students (students q ++ [student]) q);
    do! awaitFanOut env;
    triggerRender env.

(** [helper] is the object stored in [helpers], so the push onto its
    [helpedMembers] is seen through the map. *)
Definition dequeueWithHelper (env : Env) (helperMember : GuildMember)
  : Method Helpee.t :=
  await! q <- get;
  let helper := helpers q !! id helperMember in
  if negb (isOpen q) then
    reject (QueueError "This queue is not open. Did you mean to use `/start`?" (name q))
  else
    match students q with
    | [] => reject (QueueError "There's no one in the queue" (name q))
    | firstStudent :: rest =>
        match helper with
        | None =>
            reject (QueueError "You don't have permission to help this queue" (name q))
        | Some helper =>
            do! modify (set_students rest);
            let helper := {| Helper.helpStart := Helper.helpStart helper;
                             Helper.helpEnd := Helper.helpEnd helper;
                             Helper.helpedMembers :=
                               Helper.helpedMembers helper ++ [Helpee.member firstStudent];
                             Helper.member := Helper.member helper |} in
            do! modify (fun q => set_helpers (<[id helperMember := helper]> (helpers q)) q);
            do! awaitFanOut env;
            do! triggerRender env;
            resolve firstStudent
        end
    end.

(** [Array.prototype.findIndex]; [None] stands for [-1]. *)
Fixpoint findIndex {A} (p : A -> bool) (l : list A) : option nat :=
  match l with
  | [] => None
  | x :: l' => if p x then Some 0 else S <$> findIndex p l'
  end.

(** [array.splice(idx, 1)] *)
Definition splice1 {A} (idx : nat) (l : list A) : list A :=
  take idx l ++ drop (S idx) l.

Definition removeStudent (env : Env) (targetStudent : GuildMember)
  : Method unit :=
  await! q <- get;
  match findIndex (fun student => bool_decide (id (Helpee.member student) = id targetStudent))
          (students q) with
  | None =>
      reject (QueueError (displayName targetStudent +:+ " is not in the queue") (name q))
  | Some idx =>
      do! modify (fun q => set_students (splice1 idx (students q)) q);
      do! awaitFanOut env;
      triggerRender env
  end.

(** The remove-all hooks are awaited before the line is emptied. *)
Definition removeAllStudents (env : Env) : Method unit :=
  do! awaitFanOut env;
  do! modify (set_students []);
  triggerRender env.

Definition addToNotifGroup (targetStudent : GuildMember) : Method unit :=
  await! q <- get;
  if has (notifGroup q) (id targetStudent) then
    reject (QueueError "You are already in the notification squad." (name q))
  else
    modify (fun q => set_notifGroup (<[id targetStudent := targetStudent]> (notifGroup q)) q).

Definition removeFromNotifGroup (targetStudent : GuildMember) : Method unit :=
  await! q <- get;
  if negb (has (notifGroup q) (id targetStudent)) then
    reject (QueueError "You are not in the notification squad." (name q))
  else
    modify (fun q => set_notifGroup (delete (id targetStudent) (notifGroup q)) q).

(** ** Reachable states

    One call of a public mutating method, by anyone, in any environment. *)
Inductive Call :=
| OpenQueue (helperMember : GuildMember) (notify : bool)
| CloseQueue (helperMember : GuildMember)
| Enqueue (studentMember : GuildMember)
| DequeueWithHelper (helperMember : GuildMember)
| RemoveStudent (targetStudent : GuildMember)
| RemoveAllStudents
| AddToNotifGroup (targetStudent : GuildMember)
| RemoveFromNotifGroup (targetStudent : GuildMember).

(** The store a call leaves behind, whether it resolved or rejected. *)
Definition after (env : Env) (c : Call) (q : HelpQueueV2) : HelpQueueV2 :=
  match c with
  | OpenQueue m notify => store (openQueue env m notify q)
  | CloseQueue m => store (closeQueue env m q)
  | Enqueue m => store (enqueue env m q)
  | DequeueWithHelper m => store (dequeueWithHelper env m q)
  | RemoveStudent m => store (removeStudent env m q)
  | RemoveAllStudents => store (removeAllStudents env q)
  | AddToNotifGroup m => store (addToNotifGroup m q)
  | RemoveFromNotifGroup m => store (removeFromNotifGroup m q)
  end.

(** Calls are applied oldest first. *)
Definition run (calls : list (Env * Call)) (q : HelpQueueV2) : HelpQueueV2 :=
  foldl (fun q ec => after (fst ec) (snd ec) q) q calls.

Inductive reachable : HelpQueueV2 -> Prop :=
| reachable_new queueChannel backupData :
    reachable (new queueChannel backupData)
| reachable_after env c q :
    reachable q -> reachable (after env c q).

(** Membership in the two roles the invariants talk about. *)
Definition isHelper (q : HelpQueueV2) (principal : string) : Prop :=
  is_Some (helpers q !! principal).

Definition isRequester (q : HelpQueueV2) (principal : string) : Prop :=
  exists s, s ∈ students q /\ id (Helpee.member s) = principal.

(** What the constructor makes of one backup entry, and whether the
    entry's principal resolves in the channel's membership. *)
Definition restored (ch : QueueChannel) (sb : StudentBackup) : option Helpee.t :=
  (fun m => {| Helpee.waitStart := backupWaitStart sb;
               Helpee.upNext := backupUpNext sb;
               Helpee.member := m |}) <$> members ch !! memberId sb.

Definition resolvable (ch : QueueChannel) (sb : StudentBackup) : Prop :=
  is_Some (members ch !! memberId sb).

(** The requester [enqueue] pushes. *)
Definition newHelpee (env : Env) (q : HelpQueueV2) (studentMember : GuildMember)
  : Helpee.t :=
  {| Helpee.waitStart := now env;
     Helpee.upNext := bool_decide (List.length (students q) = 0);
     Helpee.member := studentMember |}.

(** A helper record after one more served member. *)
Definition served (helper : Helper.t) (firstStudent : Helpee.t) : Helper.t :=
  {| Helper.helpStart := Helper.helpStart helper;
     Helper.helpEnd := Helper.helpEnd helper;
     Helper.helpedMembers := Helper.helpedMembers helper ++ [Helpee.member firstStudent];
     Helper.member := Helper.member helper |}.

(** Every awaited collaborator of the call resolves. *)
Definition collaboratorsResolve (env : Env) : Prop :=
  fanOutResolves env = true /\ renderResolves env = true.

(** No principal holds both roles. *)
Definition rolesExclusive (q : HelpQueueV2) : Prop :=
  forall principal, ~ (isHelper q principal /\ isRequester q principal).

(** [isOpen] says whether there is a helper. *)
Definition openIffHelpers (q : HelpQueueV2) : Prop :=
  isOpen q = bool_decide (0 < size (helpers q)).

(** ** A small cast for concrete scenarios *)
Definition officeHours : QueueChannel :=
  {| members := ∅; queueName := "Office Hours"; parentCategoryId := "42" |}.
Definition tutor : GuildMember := {| id := "1001"; displayName := "Tutor" |}.
Definition student1 : GuildMember := {| id := "2001"; displayName := "S1" |}.
Definition student2 : GuildMember := {| id := "2002"; displayName := "S2" |}.
Definition calm (t : Z) : Env :=
  {| now := t; fanOutResolves := true; renderResolves := true |}.

End HelpQueue.

(** * The central command dispatcher ([CentralCommandDispatcher]) *)

Module Dispatcher.

Record Guild := { guild_id : string; guild_name : string }.

(** What [process] and [isServerInteraction] read of a
    [ChatInputCommandInteraction]. *)
Record ChatInputCommandInteraction := {
  guild : option Guild;
  commandName : string
}.

(** [utils/error-types]: the errors that reach the central handler. *)
Inductive UserViewableError :=
| CommandParseError (message : string)
| CommandNotImplementedError (message : string)
| QueueError (message : string) (queueName : string)
| ServerError (message : string).

Inductive EmbedColor := Neutral | Success.

Inductive Embed :=
| SimpleEmbed (message : string) (color : EmbedColor)
| ErrorEmbed (err : UserViewableError)
| SlashCommandLogEmbed (interaction : ChatInputCommandInteraction)
| ErrorLogEmbed (err : UserViewableError) (interaction : ChatInputCommandInteraction).

(** What leaves the dispatcher, oldest first: replies to the requester
    ([interaction.editReply]), messages to a server's log sink and console
    lines.  Only what was delivered is recorded. *)
Inductive Event :=
| EditReply (e : Embed)
| SendLogMessage (serverId : string) (e : Embed)
| ConsoleLog.

Abbreviation Task A := (Promise (list Event) UserViewableError A).

(** [console.log]: nothing to await. *)
Definition emit (ev : Event) : Task unit := modify (fun sent => sent ++ [ev]).

(** How a send through a collaborator (the transport behind
    [interaction.editReply], a server's log sink) settles, given what has
    been delivered so far: [None] when it resolves, [Some err] when it
    rejects with [err]. *)
Definition Delivery : Type := list Event -> Event -> option UserViewableError.

Definition send (delivery : Delivery) (ev : Event) : Task unit :=
  fun sent =>
    match delivery sent ev with
    | None => (Resolved tt, sent ++ [ev])
    | Some err => (Rejected err, sent)
    end.

(** [interaction.editReply(e)] *)
Definition editReply (delivery : Delivery) (e : Embed) : Task unit :=
  send delivery (EditReply e).

(** [CommandCallback]: resolves with the success message, or with
    [undefined] ([None]) when the method has replied on its own. *)
Definition CommandCallback : Type :=
  ChatInputCommandInteraction -> Task (option string).

(** The keys of [commandMethodMap], in source order. *)
Definition commandNames : list string :=
  [ "announce"; "cleanup_queue"; "cleanup_all"; "cleanup_help_channels";
    "clear"; "clear_all"; "enqueue"; "leave"; "list_helpers"; "next";
    "queue"; "set_after_session_msg"; "start"; "stop"; "help";
    "set_logging_channel"; "stop_logging"; "set_queue_auto_clear" ].

Section WithServers.

(** [AttendingServerV2] is declared elsewhere; the dispatcher only looks
    servers up by guild id and sends them log messages. *)
Context {AttendingServerV2 : Type}.

Variable delivery : Delivery.

(** [methods] gives the private method behind each key; their bodies
    call into the server aggregate and the shared validations. *)
Record CentralCommandDispatcher := {
  serverMap : gmap string AttendingServerV2;
  methods : string -> CommandCallback
}.

Definition commandMethodMap (this : CentralCommandDispatcher)
  : gmap string CommandCallback :=
  list_to_map (map (fun key => (key, methods this key)) commandNames).

(** [`${interaction.guild?.name}`] *)
Definition guildNameText (interaction : ChatInputCommandInteraction) : string :=
  match guild interaction with
  | Some g => guild_name g
  | None => "undefined"
  end.

(** The text [isServerInteraction] rejects with. *)
Definition unknownOriginMessage (interaction : ChatInputCommandInteraction)
  : string :=
  "I can only accept server based interactions. " +:+
  "Are you sure " +:+ guildNameText interaction +:+ " has a initialized YABOB?".

(** [!serverId] holds for [undefined] and for the empty string. *)
Definition isServerInteraction (this : CentralCommandDispatcher)
    (interaction : ChatInputCommandInteraction) : Task string :=
  let serverId := guild_id <$> guild interaction in
  match serverId with
  | Some serverId =>
      if bool_decide (serverId = "") || negb (has (serverMap this) serverId) then
        reject (CommandParseError (unknownOriginMessage interaction))
      else resolve serverId
  | None => reject (CommandParseError (unknownOriginMessage interaction))
  end.

(** [this.serverMap.get(serverId)?.sendLogMessage(e)] *)
Definition sendLogMessage (this : CentralCommandDispatcher)
    (serverId : string) (e : Embed) : Task unit :=
  match serverMap this !! serverId with
  | Some _ => send delivery (SendLogMessage serverId e)
  | None => resolve tt
  end.

(** [process].  The first line awaits [isServerInteraction]; a rejected
    promise makes [await] throw, and [?? 'unknown'] only replaces a
    resolved [null] or [undefined], which a resolved string never is.
    The acknowledgement and the log message are awaited together, outside
    any handler.  [.then(f).catch(g)] also routes a rejection of [f] to
    [g]; inside [g] the reply is awaited and the log message is not. *)
Definition process (this : CentralCommandDispatcher)
    (interaction : ChatInputCommandInteraction) : Task unit :=
  await! serverId <- isServerInteraction this interaction;
  do! all2 (editReply delivery (SimpleEmbed "Processing command..." Neutral))
           (sendLogMessage this serverId (SlashCommandLogEmbed interaction));
  match commandMethodMap this !! commandName interaction with
  | None =>
      editReply delivery
        (ErrorEmbed (CommandNotImplementedError "This command does not exist."))
  | Some commandMethod =>
      do! emit ConsoleLog;
      catch
        (await! successMsg <- commandMethod interaction;
         match successMsg with
         | Some successMsg =>
             if bool_decide (successMsg = "") then resolve tt
             else editReply delivery (SimpleEmbed successMsg Success)
         | None => resolve tt
         end)
        (fun err =>
           do! editReply delivery (ErrorEmbed err);
           detached (sendLogMessage this serverId (ErrorLogEmbed err interaction)))
  end.

(** The replies to the requester among the events. *)
Definition replies (sent : list Event) : list Embed :=
  omap (fun ev => match ev with EditReply e => Some e | _ => None end) sent.

(** The origin of a request resolves to a known, initialized server. *)
Definition originKnown (this : CentralCommandDispatcher)
    (interaction : ChatInputCommandInteraction) : bool :=
  match guild interaction with
  | Some g => negb (bool_decide (guild_id g = "")) && has (serverMap this) (guild_id g)
  | None => false
  end.

End WithServers.

Arguments CentralCommandDispatcher : clear implicits.

(** A dispatcher that serves no guild, whose methods all resolve, and an
    "enqueue" request sent from outside any guild. *)
Definition lonelyDispatcher : CentralCommandDispatcher unit :=
  {| serverMap := ∅; methods := fun _ _ => resolve (Some "ok") |}.
Definition strayEnqueue : ChatInputCommandInteraction :=
  {| guild := None; commandName := "enqueue" |}.

(** A transport and log sinks that deliver everything. *)
Definition reliable : Delivery := fun _ _ => None.

End Dispatcher.

(** * Handler tables and their composition ([combineMethodMaps]) *)

Module HandlerMaps.

(** The tables are JS objects used as maps from a name to a handler.
    [H] is the type of handlers. *)
Record GuildMethodMap (H : Type) := {
  queue : gmap string H;
  other : gmap string H
}.
Arguments queue {H} _.
Arguments other {H} _.

Module CommandHandlerProps.
Record t (H : Type) := {
  methodMap : gmap string H;
  skipProgressMessageCommands : gset string
}.
Arguments methodMap {H} _.
Arguments skipProgressMessageCommands {H} _.
End CommandHandlerProps.

Module ButtonHandlerProps.
Record t (H : Type) := {
  guildMethodMap : GuildMethodMap H;
  dmMethodMap : gmap string H;
  skipProgressMessageButtons : gset string
}.
Arguments guildMethodMap {H} _.
Arguments dmMethodMap {H} _.
Arguments skipProgressMessageButtons {H} _.
End ButtonHandlerProps.

Module SelectMenuHandlerProps.
Record t (H : Type) := {
  guildMethodMap : GuildMethodMap H;
  dmMethodMap : gmap string H;
  skipProgressMessageSelectMenus : gset string
}.
Arguments guildMethodMap {H} _.
Arguments dmMethodMap {H} _.
Arguments skipProgressMessageSelectMenus {H} _.
End SelectMenuHandlerProps.

Module ModalSubmitHandlerProps.
Record t (H : Type) := {
  guildMethodMap : GuildMethodMap H;
  dmMethodMap : gmap string H
}.
Arguments guildMethodMap {H} _.
Arguments dmMethodMap {H} _.
End ModalSubmitHandlerProps.

(** What [combineMethodMaps] reads of an [InteractionExtension]. *)
Record InteractionExtension (H : Type) := {
  commandMap : CommandHandlerProps.t H;
  buttonMap : ButtonHandlerProps.t H;
  selectMenuMap : SelectMenuHandlerProps.t H;
  modalMap : ModalSubmitHandlerProps.t H
}.
Arguments commandMap {H} _.
Arguments buttonMap {H} _.
Arguments selectMenuMap {H} _.
Arguments modalMap {H} _.

(** The four built-in tables ([baseYabobCommandMap], ...), imported from
    the handler files. *)
Record BaseMaps (H : Type) := {
  baseYabobCommandMap : CommandHandlerProps.t H;
  baseYabobButtonMethodMap : ButtonHandlerProps.t H;
  baseYabobSelectMenuMap : SelectMenuHandlerProps.t H;
  baseYabobModalMap : ModalSubmitHandlerProps.t H
}.
Arguments baseYabobCommandMap {H} _.
Arguments baseYabobButtonMethodMap {H} _.
Arguments baseYabobSelectMenuMap {H} _.
Arguments baseYabobModalMap {H} _.

Section Combine.
Context {H : Type}.

(** [Object.assign(prev, curr)]: the properties of [curr] are written
    over those of [prev]. *)
Definition assign (prev curr : gmap string H) : gmap string H := curr ∪ prev.

(** [{ ...a, ...b }] *)
Definition spread2 (a b : gmap string H) : gmap string H := b ∪ a.

(** [[first, ...rest].reduce((prev, curr) => Object.assign(prev, curr))]:
    without an initial value the fold starts from the first table.  (It
    also writes the result into that first table, which is an
    extension's own object; the composed tables are read from the
    result only.) *)
Definition reduceAssign (first : gmap string H) (rest : list (gmap string H))
  : gmap string H :=
  foldl assign first rest.

(** [new Set([...base, ...sets.flatMap(set => [...set.values()])])] *)
Definition unionSkip (base : gset string) (sets : list (gset string))
  : gset string :=
  base ∪ ⋃ sets.

Definition combineMethodMaps (base : BaseMaps H)
    (interactionExtensions : list (InteractionExtension H))
  : CommandHandlerProps.t H * ButtonHandlerProps.t H *
    SelectMenuHandlerProps.t H * ModalSubmitHandlerProps.t H :=
  match interactionExtensions with
  | [] =>
      (baseYabobCommandMap base, baseYabobButtonMethodMap base,
       baseYabobSelectMenuMap base, baseYabobModalMap base)
  | ext0 :: exts =>
      let merged {X} (ofBase : BaseMaps H -> X) (ofExt : InteractionExtension H -> X)
                 (table : X -> gmap string H) : gmap string H :=
        spread2 (table (ofBase base))
                (reduceAssign (table (ofExt ext0)) (map (fun ext => table (ofExt ext)) exts)) in
      let completeCommandMap :=
        {| CommandHandlerProps.methodMap :=
             merged baseYabobCommandMap commandMap CommandHandlerProps.methodMap;
           CommandHandlerProps.skipProgressMessageCommands :=
             unionSkip
               (CommandHandlerProps.skipProgressMessageCommands (baseYabobCommandMap base))
               (map (fun ext => CommandHandlerProps.skipProgressMessageCommands (commandMap ext))
                    interactionExtensions) |} in
      let completeButtonMap :=
        {| ButtonHandlerProps.guildMethodMap :=
             {| queue := merged baseYabobButtonMethodMap buttonMap
                           (fun m => queue (ButtonHandlerProps.guildMethodMap m));
                other := merged baseYabobButtonMethodMap buttonMap
                           (fun m => other (ButtonHandlerProps.guildMethodMap m)) |};
           ButtonHandlerProps.dmMethodMap :=
             merged baseYabobButtonMethodMap buttonMap ButtonHandlerProps.dmMethodMap;
           ButtonHandlerProps.skipProgressMessageButtons :=
             unionSkip
               (ButtonHandlerProps.skipProgressMessageButtons (baseYabobButtonMethodMap base))
               (map (fun ext => ButtonHandlerProps.skipProgressMessageButtons (buttonMap ext))
                    interactionExtensions) |} in
      let completeSelectMenuMap :=
        {| SelectMenuHandlerProps.guildMethodMap :=
             {| queue := merged baseYabobSelectMenuMap selectMenuMap
                           (fun m => queue (SelectMenuHandlerProps.guildMethodMap m));
                other := merged baseYabobSelectMenuMap selectMenuMap
                           (fun m => other (SelectMenuHandlerProps.guildMethodMap m)) |};
           SelectMenuHandlerProps.dmMethodMap :=
             merged baseYabobSelectMenuMap selectMenuMap SelectMenuHandlerProps.dmMethodMap;
           SelectMenuHandlerProps.skipProgressMessageSelectMenus :=
             unionSkip
               (SelectMenuHandlerProps.skipProgressMessageSelectMenus (baseYabobSelectMenuMap base))
               (map (fun ext => SelectMenuHandlerProps.skipProgressMessageSelectMenus (selectMenuMap ext))
                    interactionExtensions) |} in
      let completeModalMap :=
        {| ModalSubmitHandlerProps.guildMethodMap :=
             {| queue := merged baseYabobModalMap modalMap
                           (fun m => queue (ModalSubmitHandlerProps.guildMethodMap m));
                other := merged baseYabobModalMap modalMap
                           (fun m => other (ModalSubmitHandlerProps.guildMethodMap m)) |};
           ModalSubmitHandlerProps.dmMethodMap :=
             merged baseYabobModalMap modalMap ModalSubmitHandlerProps.dmMethodMap |} in
      (completeCommandMap, completeButtonMap, completeSelectMenuMap, completeModalMap)
  end.

(** The handler the extensions contribute for [key], if any: the one of
    the extension registered last among those that have the key. *)
Definition lastContributed (key : string) (tables : list (gmap string H))
  : option H :=
  foldl (fun found table => match table !! key with
                            | Some h => Some h
                            | None => found
                            end) None tables.

(** The ten name-to-handler tables of a composition, and where each
    comes from in the built-in tables and in an extension. *)
Inductive Slot :=
| Commands
| ButtonsQueue | ButtonsOther | ButtonsDm
| SelectMenusQueue | SelectMenusOther | SelectMenusDm
| ModalsQueue | ModalsOther | ModalsDm.

Definition baseTable (slot : Slot) (base : BaseMaps H) : gmap string H :=
  match slot with
  | Commands => CommandHandlerProps.methodMap (baseYabobCommandMap base)
  | ButtonsQueue => queue (ButtonHandlerProps.guildMethodMap (baseYabobButtonMethodMap base))
  | ButtonsOther => other (ButtonHandlerProps.guildMethodMap (baseYabobButtonMethodMap base))
  | ButtonsDm => ButtonHandlerProps.dmMethodMap (baseYabobButtonMethodMap base)
  | SelectMenusQueue => queue (SelectMenuHandlerProps.guildMethodMap (baseYabobSelectMenuMap base))
  | SelectMenusOther => other (SelectMenuHandlerProps.guildMethodMap (baseYabobSelectMenuMap base))
  | SelectMenusDm => SelectMenuHandlerProps.dmMethodMap (baseYabobSelectMenuMap base)
  | ModalsQueue => queue (ModalSubmitHandlerProps.guildMethodMap (baseYabobModalMap base))
  | ModalsOther => other (ModalSubmitHandlerProps.guildMethodMap (baseYabobModalMap base))
  | ModalsDm => ModalSubmitHandlerProps.dmMethodMap (baseYabobModalMap base)
  end.

Definition extensionTable (slot : Slot) (ext : InteractionExtension H)
  : gmap string H :=
  match slot with
  | Commands => CommandHandlerProps.methodMap (commandMap ext)
  | ButtonsQueue => queue (ButtonHandlerProps.guildMethodMap (buttonMap ext))
  | ButtonsOther => other (ButtonHandlerProps.guildMethodMap (buttonMap ext))
  | ButtonsDm => ButtonHandlerProps.dmMethodMap (buttonMap ext)
  | SelectMenusQueue => queue (SelectMenuHandlerProps.guildMethodMap (selectMenuMap ext))
  | SelectMenusOther => other (SelectMenuHandlerProps.guildMethodMap (selectMenuMap ext))
  | SelectMenusDm => SelectMenuHandlerProps.dmMethodMap (selectMenuMap ext)
  | ModalsQueue => queue (ModalSubmitHandlerProps.guildMethodMap (modalMap ext))
  | ModalsOther => other (ModalSubmitHandlerProps.guildMethodMap (modalMap ext))
  | ModalsDm => ModalSubmitHandlerProps.dmMethodMap (modalMap ext)
  end.

Definition completeTable (slot : Slot)
    (complete : CommandHandlerProps.t H * ButtonHandlerProps.t H *
                SelectMenuHandlerProps.t H * ModalSubmitHandlerProps.t H)
  : gmap string H :=
  match slot with
  | Commands => CommandHandlerProps.methodMap complete.1.1.1
  | ButtonsQueue => queue (ButtonHandlerProps.guildMethodMap complete.1.1.2)
  | ButtonsOther => other (ButtonHandlerProps.guildMethodMap complete.1.1.2)
  | ButtonsDm => ButtonHandlerProps.dmMethodMap complete.1.1.2
  | SelectMenusQueue => queue (SelectMenuHandlerProps.guildMethodMap complete.1.2)
  | SelectMenusOther => other (SelectMenuHandlerProps.guildMethodMap complete.1.2)
  | SelectMenusDm => SelectMenuHandlerProps.dmMethodMap complete.1.2
  | ModalsQueue => queue (ModalSubmitHandlerProps.guildMethodMap complete.2)
  | ModalsOther => other (ModalSubmitHandlerProps.guildMethodMap complete.2)
  | ModalsDm => ModalSubmitHandlerProps.dmMethodMap complete.2
  end.

(** The built-in entry under [key], if there is one, is still the entry
    under [key] after composition. *)
Definition baseEntryKept (base : BaseMaps H)
    (interactionExtensions : list (InteractionExtension H))
    (slot : Slot) (key : string) : Prop :=
  forall h, baseTable slot base !! key = Some h ->
            completeTable slot (combineMethodMaps base interactionExtensions) !! key
            = Some h.

End Combine.

(** Tables without entries, and built-in maps that only have commands. *)
Definition emptyButtons {H} : ButtonHandlerProps.t H :=
  {| ButtonHandlerProps.guildMethodMap := {| queue := ∅; other := ∅ |};
     ButtonHandlerProps.dmMethodMap := ∅;
     ButtonHandlerProps.skipProgressMessageButtons := ∅ |}.
Definition emptySelectMenus {H} : SelectMenuHandlerProps.t H :=
  {| SelectMenuHandlerProps.guildMethodMap := {| queue := ∅; other := ∅ |};
     SelectMenuHandlerProps.dmMethodMap := ∅;
     SelectMenuHandlerProps.skipProgressMessageSelectMenus := ∅ |}.
Definition emptyModals {H} : ModalSubmitHandlerProps.t H :=
  {| ModalSubmitHandlerProps.guildMethodMap := {| queue := ∅; other := ∅ |};
     ModalSubmitHandlerProps.dmMethodMap := ∅ |}.
Definition commandsOnly {H} (commands : gmap string H) : BaseMaps H :=
  {| baseYabobCommandMap :=
       {| CommandHandlerProps.methodMap := commands;
          CommandHandlerProps.skipProgressMessageCommands := ∅ |};
     baseYabobButtonMethodMap := emptyButtons;
     baseYabobSelectMenuMap := emptySelectMenus;
     baseYabobModalMap := emptyModals |}.

(** A built-in "enqueue" command and an extension that brings a command
    of the same name; handlers are told apart by a label. *)
Definition builtIn : BaseMaps string :=
  commandsOnly {[ "enqueue" := "built-in enqueue" ]}.
Definition shadowing : InteractionExtension string :=
  {| commandMap :=
       {| CommandHandlerProps.methodMap := {[ "enqueue" := "extension enqueue" ]};
          CommandHandlerProps.skipProgressMessageCommands := ∅ |};
     buttonMap := emptyButtons;
     selectMenuMap := emptySelectMenus;
     modalMap := emptyModals |}.

End HandlerMaps.

(** * The generic interaction processors *)

Module Processors.

Import HandlerMaps.

(** The first component of a decompressed component id. *)
Inductive ComponentType := TQueue | TOther | TDm.

Inductive InteractionKind :=
| ChatInputCommand | Button | StringSelectMenu | ModalSubmit | OtherKind.

(** What the processors read of an [Interaction]. *)
Record Interaction := {
  kind : InteractionKind;
  isRepliable : bool;
  inCachedGuild : bool;
  guildId : option string;
  customId : string;
  commandName : string;
  subcommand : option string
}.

Definition isChatInputCommand (i : Interaction) : bool :=
  match kind i with ChatInputCommand => true | _ => false end.
Definition isButton (i : Interaction) : bool :=
  match kind i with Button => true | _ => false end.
Definition isStringSelectMenu (i : Interaction) : bool :=
  match kind i with StringSelectMenu => true | _ => false end.
Definition isModalSubmit (i : Interaction) : bool :=
  match kind i with ModalSubmit => true | _ => false end.

Record Error := { errorName : string; errorMessage : string }.

Inductive Embed :=
| SimpleEmbed (message : string)
| ErrorEmbed (error : Error) (botAdminRoleID : string)
| SlashCommandLogEmbed
| ButtonLogEmbed (buttonName : string)
| SelectMenuLogEmbed (selectMenuName : string).

Inductive Event :=
| Reply (e : Embed) (ephemeral : bool)
| EditReply (e : Embed)
| SendLogMessage (serverId : string) (e : Embed)
| Log (line : string)
| LogExpectedErrors (err : Error).

(** The mutable part of an interaction ([interaction.replied]) and what has
    been sent so far, oldest first.  The transport and the log sink are
    taken to resolve. *)
Record Session := { replied : bool; sent : list Event }.

Abbreviation Task A := (Promise Session Error A).

Definition emit (ev : Event) : Task unit :=
  modify (fun s => {| replied := replied s; sent := sent s ++ [ev] |}).

Definition reply (e : Embed) (ephemeral : bool) : Task unit :=
  modify (fun s => {| replied := true; sent := sent s ++ [Reply e ephemeral] |}).

Definition editReply (e : Embed) : Task unit := emit (EditReply e).

Definition Handler : Type := Interaction -> Task unit.

(** [AttendingServer]: the guild id it serves and the role id the error
    embed mentions. *)
Record AttendingServer := { serverGuildId : string; botAdminRoleID : string }.

Definition userVisible (ev : Event) : bool :=
  match ev with Reply _ _ | EditReply _ => true | _ => false end.

Definition isErrorReply (ev : Event) : bool :=
  match ev with
  | Reply (ErrorEmbed _ _) _ | EditReply (ErrorEmbed _ _) => true
  | _ => false
  end.

(** ** Reading a handler out of a table

    The handler tables are plain objects read with [table[name]].  The
    read finds the table's own entry of that name; failing that, the member
    of that name which every plain object inherits from
    [Object.prototype]; failing that, [undefined]. *)
Definition objectPrototypeMembers : list string :=
  [ "constructor"; "__defineGetter__"; "__defineSetter__"; "hasOwnProperty";
    "__lookupGetter__"; "__lookupSetter__"; "isPrototypeOf";
    "propertyIsEnumerable"; "toString"; "valueOf"; "__proto__";
    "toLocaleString" ].

Inductive Property (A : Type) : Type :=
| Own (a : A)
| Inherited (member : string)
| Undefined.
Arguments Own {A} a.
Arguments Inherited {A} member.
Arguments Undefined {A}.

Definition readProperty {A} (table : gmap string A) (name : string) : Property A :=
  match table !! name with
  | Some a => Own a
  | None =>
      if bool_decide (name ∈ objectPrototypeMembers) then Inherited name
      else Undefined
  end.

Section WithTables.

(** [utils/component-id-factory]: [None] is a result that is not [ok],
    otherwise the triple [type, name, serverId]. *)
Variable safeDecompressComponentId :
  string -> option (ComponentType * string * string).

(** [AttendingServer.get] is typed as returning a server; for an id
    without one it can only throw, here with [serverNotFound]. *)
Variable allServers : gmap string AttendingServer.
Variable serverNotFound : Error.

(** None of the inherited members is a handler: called as one,
    [constructor] and [toString] return a value without a [catch] method,
    [__proto__] is not a function, and the others throw on their
    [undefined] receiver.  Each time the statement throws a [TypeError];
    [notAHandler member] is that error, its text being the engine's. *)
Variable notAHandler : string -> Error.

Variable base : BaseMaps Handler.
Variable interactionExtensions : list (InteractionExtension Handler).

Definition AttendingServer_get (serverId : string) : Task AttendingServer :=
  match allServers !! serverId with
  | Some server => resolve server
  | None => reject serverNotFound
  end.

Definition sendLogMessage (server : AttendingServer) (e : Embed) : Task unit :=
  emit (SendLogMessage (serverGuildId server) e).

Definition completeCommandMap : CommandHandlerProps.t Handler :=
  (combineMethodMaps base interactionExtensions).1.1.1.
Definition completeButtonMap : ButtonHandlerProps.t Handler :=
  (combineMethodMaps base interactionExtensions).1.1.2.
Definition completeSelectMenuMap : SelectMenuHandlerProps.t Handler :=
  (combineMethodMaps base interactionExtensions).1.2.
Definition completeModalMap : ModalSubmitHandlerProps.t Handler :=
  (combineMethodMaps base interactionExtensions).2.

Definition replyWithError (interaction : Interaction) (error : Error)
    (botAdminRoleID : string) : Task unit :=
  if negb (isRepliable interaction) then resolve tt
  else
    await! s <- get;
    if replied s then editReply (ErrorEmbed error botAdminRoleID)
    else reply (ErrorEmbed error botAdminRoleID) true.

(** [handle?.(interaction).catch(async err => { ... })]: [undefined] is
    skipped, a handler is called and its rejection caught, and anything
    else throws where it stands, outside the [catch]. *)
Definition invoke (handle : Property Handler) (interaction : Interaction)
    (server : AttendingServer) : Task unit :=
  match handle with
  | Undefined => resolve tt
  | Inherited member => reject (notAHandler member)
  | Own handle =>
      catch (handle interaction)
            (fun err =>
               do! emit (LogExpectedErrors err);
               replyWithError interaction err (botAdminRoleID server))
  end.

(** [guildMethodMap[type]] for a [type] other than ['dm']. *)
Definition guildTable (type : ComponentType) (m : GuildMethodMap Handler)
  : option (gmap string Handler) :=
  match type with
  | TQueue => Some (queue m)
  | TOther => Some (other m)
  | TDm => None
  end.

Definition processChatInputCommand (interaction : Interaction) : Task unit :=
  if negb (inCachedGuild interaction) || negb (isChatInputCommand interaction) then
    resolve tt
  else
    let commandName := commandName interaction in
    let possibleSubcommands := subcommand interaction in
    await! server <- AttendingServer_get (default "" (guildId interaction));
    let handleCommand :=
      readProperty (CommandHandlerProps.methodMap completeCommandMap) commandName in
    do! emit (Log "logSlashCommand");
    do! sendLogMessage server SlashCommandLogEmbed;
    do! (if negb (bool_decide
                    (commandName ∈ CommandHandlerProps.skipProgressMessageCommands
                                     completeCommandMap)) then
           reply (SimpleEmbed
                    ("Processing command `" +:+ commandName +:+
                     match possibleSubcommands with
                     | Some sub => if bool_decide (sub = "") then "" else " " +:+ sub
                     | None => ""
                     end +:+ "` ...")) true
         else resolve tt);
    invoke handleCommand interaction server.

Definition processButton (interaction : Interaction) : Task unit :=
  if negb (isButton interaction) then resolve tt
  else
    match safeDecompressComponentId (customId interaction) with
    | None => resolve tt
    | Some (type, buttonName, serverId) =>
        await! server <- AttendingServer_get (default serverId (guildId interaction));
        do! sendLogMessage server (ButtonLogEmbed buttonName);
        do! (if negb (bool_decide
                        (buttonName ∈ ButtonHandlerProps.skipProgressMessageButtons
                                        completeButtonMap)) then
               reply (SimpleEmbed ("Processing button `" +:+ buttonName +:+ "`...")) true
             else resolve tt);
        match inCachedGuild interaction,
              guildTable type (ButtonHandlerProps.guildMethodMap completeButtonMap) with
        | true, Some table =>
            do! emit (Log "logButtonPress");
            let handleButton := readProperty table buttonName in
            invoke handleButton interaction server
        | _, _ =>
            do! emit (Log "logDMButtonPress");
            let handleButton :=
              readProperty (ButtonHandlerProps.dmMethodMap completeButtonMap) buttonName in
            invoke handleButton interaction server
        end
    end.

Definition processSelectMenu (interaction : Interaction) : Task unit :=
  if negb (isStringSelectMenu interaction) then resolve tt
  else
    match safeDecompressComponentId (customId interaction) with
    | None => resolve tt
    | Some (type, selectMenuName, serverId) =>
        await! server <- AttendingServer_get (default serverId (guildId interaction));
        do! sendLogMessage server (SelectMenuLogEmbed selectMenuName);
        do! (if negb (bool_decide
                        (selectMenuName ∈
                           SelectMenuHandlerProps.skipProgressMessageSelectMenus
                             completeSelectMenuMap)) then
               reply (SimpleEmbed ("Processing button `" +:+ selectMenuName +:+ "`")) true
             else resolve tt);
        match inCachedGuild interaction,
              guildTable type (SelectMenuHandlerProps.guildMethodMap completeSelectMenuMap) with
        | true, Some table =>
            do! emit (Log "logSelectMenuSelection");
            let handleSelectMenu := readProperty table selectMenuName in
            invoke handleSelectMenu interaction server
        | _, _ =>
            do! emit (Log "logDMSelectMenuSelection");
            let handleSelectMenu :=
              readProperty (SelectMenuHandlerProps.dmMethodMap completeSelectMenuMap)
                           selectMenuName in
            invoke handleSelectMenu interaction server
        end
    end.

Definition processModalSubmit (interaction : Interaction) : Task unit :=
  if negb (isModalSubmit interaction) then resolve tt
  else
    match safeDecompressComponentId (customId interaction) with
    | None => resolve tt
    | Some (type, modalName, serverId) =>
        await! server <- AttendingServer_get (default serverId (guildId interaction));
        do! sendLogMessage server (ButtonLogEmbed modalName);
        match inCachedGuild interaction,
              guildTable type (ModalSubmitHandlerProps.guildMethodMap completeModalMap) with
        | true, Some table =>
            do! emit (Log "logModalSubmit");
            let handleModalSubmit := readProperty table modalName in
            invoke handleModalSubmit interaction server
        | _, _ =>
            do! emit (Log "logDMModalSubmit");
            let handleModalSubmit :=
              readProperty (ModalSubmitHandlerProps.dmMethodMap completeModalMap)
                           modalName in
            invoke handleModalSubmit interaction server
        end
    end.

Definition unsupportedInteraction (interaction : Interaction) : Task unit :=
  if isRepliable interaction then
    reply (SimpleEmbed "This interaction is currently not supported") true
  else resolve tt.

Definition getHandler (interaction : Interaction) : Interaction -> Task unit :=
  if isChatInputCommand interaction then processChatInputCommand
  else if isModalSubmit interaction then processModalSubmit
  else if isStringSelectMenu interaction then processSelectMenu
  else if isButton interaction then processButton
  else unsupportedInteraction.

(** ** The three component processors, side by side *)

Inductive Component := ButtonComponent | SelectMenuComponent | ModalComponent.

Definition processComponent (c : Component) : Interaction -> Task unit :=
  match c with
  | ButtonComponent => processButton
  | SelectMenuComponent => processSelectMenu
  | ModalComponent => processModalSubmit
  end.

Definition isComponent (c : Component) (interaction : Interaction) : bool :=
  match c with
  | ButtonComponent => isButton interaction
  | SelectMenuComponent => isStringSelectMenu interaction
  | ModalComponent => isModalSubmit interaction
  end.

(** The handler a processor looks up once the component id is parsed. *)
Definition componentHandler (c : Component) (type : ComponentType)
    (componentName : string) (interaction : Interaction) : Property Handler :=
  let guildMethodMap :=
    match c with
    | ButtonComponent => ButtonHandlerProps.guildMethodMap completeButtonMap
    | SelectMenuComponent => SelectMenuHandlerProps.guildMethodMap completeSelectMenuMap
    | ModalComponent => ModalSubmitHandlerProps.guildMethodMap completeModalMap
    end in
  let dmMethodMap :=
    match c with
    | ButtonComponent => ButtonHandlerProps.dmMethodMap completeButtonMap
    | SelectMenuComponent => SelectMenuHandlerProps.dmMethodMap completeSelectMenuMap
    | ModalComponent => ModalSubmitHandlerProps.dmMethodMap completeModalMap
    end in
  match inCachedGuild interaction, guildTable type guildMethodMap with
  | true, Some table => readProperty table componentName
  | _, _ => readProperty dmMethodMap componentName
  end.

(** What has been sent, in order, by the time the handler is invoked:
    the log-sink message, the progress reply unless the name is in the
    skip set (form submissions never get one), and a console line. *)
Definition beforeHandler (c : Component) (type : ComponentType)
    (componentName : string) (server : AttendingServer)
    (interaction : Interaction) : list Event :=
  let guildRouted :=
    match inCachedGuild interaction, type with
    | true, TQueue | true, TOther => true
    | _, _ => false
    end in
  match c with
  | ButtonComponent =>
      [SendLogMessage (serverGuildId server) (ButtonLogEmbed componentName)] ++
      (if bool_decide (componentName ∈
                         ButtonHandlerProps.skipProgressMessageButtons completeButtonMap)
       then []
       else [Reply (SimpleEmbed ("Processing button `" +:+ componentName +:+ "`...")) true]) ++
      [Log (if guildRouted then "logButtonPress" else "logDMButtonPress")]
  | SelectMenuComponent =>
      [SendLogMessage (serverGuildId server) (SelectMenuLogEmbed componentName)] ++
      (if bool_decide (componentName ∈
                         SelectMenuHandlerProps.skipProgressMessageSelectMenus
                           completeSelectMenuMap)
       then []
       else [Reply (SimpleEmbed ("Processing button `" +:+ componentName +:+ "`")) true]) ++
      [Log (if guildRouted then "logSelectMenuSelection" else "logDMSelectMenuSelection")]
  | ModalComponent =>
      [SendLogMessage (serverGuildId server) (ButtonLogEmbed componentName)] ++
      [Log (if guildRouted then "logModalSubmit" else "logDMModalSubmit")]
  end.

Definition progressed (c : Component) (type : ComponentType)
    (componentName : string) (server : AttendingServer)
    (interaction : Interaction) (s : Session) : Session :=
  let events := beforeHandler c type componentName server interaction in
  {| replied := replied s || existsb userVisible events;
     sent := sent s ++ events |}.

(** The session after [replyWithError] on a repliable interaction. *)
Definition errorReplied (err : Error) (server : AttendingServer) (s : Session)
  : Session :=
  {| replied := true;
     sent := sent s ++
             [ LogExpectedErrors err;
               if replied s then EditReply (ErrorEmbed err (botAdminRoleID server))
               else Reply (ErrorEmbed err (botAdminRoleID server)) true ] |}.

(** Some user-visible error reply has been sent. *)
Definition errorReplySent (s : Session) : Prop :=
  exists ev, ev ∈ sent s /\ isErrorReply ev = true.

End WithTables.

(** A request as it arrives: nothing replied, nothing sent. *)
Definition fresh : Session := {| replied := false; sent := [] |}.

(** ** A small cast for concrete scenarios *)

Definition alwaysJoin (customId : string) : option (ComponentType * string * string) :=
  Some (TQueue, "join", "guild-1").
Definition alwaysConstructor (customId : string)
  : option (ComponentType * string * string) :=
  Some (TQueue, "constructor", "guild-1").
Definition guild1 : AttendingServer :=
  {| serverGuildId := "guild-1"; botAdminRoleID := "admin-role" |}.
Definition notFound : Error :=
  {| errorName := "ServerError"; errorMessage := "server not found" |}.
Definition queueClosed : Error :=
  {| errorName := "QueueError"; errorMessage := "Queue is not open." |}.
Definition typeError (member : string) : Error :=
  {| errorName := "TypeError"; errorMessage := member +:+ " is not a handler" |}.
Definition pressed (customId : string) : Interaction :=
  {| kind := Button; isRepliable := true; inCachedGuild := true;
     guildId := Some "guild-1"; customId := customId;
     commandName := ""; subcommand := None |}.
(** Built-in tables whose only entry is a "join" queue button that rejects. *)
Definition joinRejects : BaseMaps Handler :=
  {| baseYabobCommandMap :=
       {| CommandHandlerProps.methodMap := ∅;
          CommandHandlerProps.skipProgressMessageCommands := ∅ |};
     baseYabobButtonMethodMap :=
       {| ButtonHandlerProps.guildMethodMap :=
            {| queue := {[ "join" := fun _ => reject queueClosed ]}; other := ∅ |};
          ButtonHandlerProps.dmMethodMap := ∅;
          ButtonHandlerProps.skipProgressMessageButtons := ∅ |};
     baseYabobSelectMenuMap := emptySelectMenus;
     baseYabobModalMap := emptyModals |}.

End Processors.

(** * Calls on the help queue, seen from a caller *)

Module HelpQueueCalls.

Import HelpQueue.

(** The settled result of a call with its value dropped. *)
Definition forget {A} (r : Settled Rejection A * HelpQueueV2)
  : Settled Rejection unit * HelpQueueV2 :=
  match r with
  | (Resolved _, q) => (Resolved tt, q)
  | (Rejected e, q) => (Rejected e, q)
  end.

(** One call of a public method: how it settles and the queue it leaves. *)
Definition perform (env : Env) (c : Call) (q : HelpQueueV2)
  : Settled Rejection unit * HelpQueueV2 :=
  match c with
  | OpenQueue m notify => openQueue env m notify q
  | CloseQueue m => forget (closeQueue env m q)
  | Enqueue m => enqueue env m q
  | DequeueWithHelper m => forget (dequeueWithHelper env m q)
  | RemoveStudent m => removeStudent env m q
  | RemoveAllStudents => removeAllStudents env q
  | AddToNotifGroup m => addToNotifGroup m q
  | RemoveFromNotifGroup m => removeFromNotifGroup m q
  end.

(** The member ids of the waiting line, head first. *)
Definition lineIds (q : HelpQueueV2) : list string :=
  map (fun s => id (Helpee.member s)) (students q).

(** No member is in the line twice. *)
Definition lineDistinct (q : HelpQueueV2) : Prop := NoDup (lineIds q).

(** Members enqueue one after the other, each in its own environment. *)
Definition enqueueEach (arrivals : list (Env * GuildMember)) : list (Env * Call) :=
  map (fun a => (fst a, Enqueue (snd a))) arrivals.

(** The same helper dequeues [k] times. *)
Definition dequeueTimes (env : Env) (helperMember : GuildMember) (k : nat)
  : list (Env * Call) :=
  replicate k (env, DequeueWithHelper helperMember).

(** A helper record after serving the requesters of [l], in order. *)
Definition servedAll (helper : Helper.t) (l : list Helpee.t) : Helper.t :=
  {| Helper.helpStart := Helper.helpStart helper;
     Helper.helpEnd := Helper.helpEnd helper;
     Helper.helpedMembers := Helper.helpedMembers helper ++ map Helpee.member l;
     Helper.member := Helper.member helper |}.

(** The record [closeQueue] resolves with. *)
Definition closed (helper : Helper.t) (env : Env) : Helper.t :=
  {| Helper.helpStart := Helper.helpStart helper;
     Helper.helpEnd := Some (now env);
     Helper.helpedMembers := Helper.helpedMembers helper;
     Helper.member := Helper.member helper |}.

End HelpQueueCalls.

(** * What the dispatcher adds around a command method *)

Module DispatcherMethods.

Import Dispatcher.

(** [a ?? b] on a value that is [undefined] ([None]) or not. *)
Definition orElse {A} (a b : option A) : option A :=
  match a with Some x => Some x | None => b end.

(** An entry of the help-message lists: [nameValuePair.name] and the
    message that is sent for it. *)
Record HelpMessage := { helpName : string; message : Embed }.

Definition findHelp (messages : list HelpMessage) (commandName : string)
  : option HelpMessage :=
  List.find (fun message => bool_decide (helpName message = commandName)) messages.

(** Each of [events], sent in turn after [sent], is delivered. *)
Fixpoint delivers (delivery : Delivery) (sent events : list Event) : Prop :=
  match events with
  | [] => True
  | ev :: events =>
      delivery sent ev = None /\ delivers delivery (sent ++ [ev]) events
  end.

(** A rejection that is one of the transport's or of a log sink's. *)
Definition rejectedSend (delivery : Delivery) (err : UserViewableError) : Prop :=
  exists sent ev, delivery sent ev = Some err.

Section Help.

Variable delivery : Delivery.

(** The three lists are imported from the help-channel message files. *)
Variables adminCommandHelpMessages helperCommandHelpMessages
          studentCommandHelpMessages : list HelpMessage.

(** [help]; [commandName] is the required string option ['command']. *)
Definition help (commandName : string) : Task (option string) :=
  let helpMessage :=
    orElse (orElse (findHelp adminCommandHelpMessages commandName)
                   (findHelp helperCommandHelpMessages commandName))
           (findHelp studentCommandHelpMessages commandName) in
  match helpMessage with
  | Some helpMessage =>
      do! editReply delivery (message helpMessage);
      resolve None
  | None => reject (CommandParseError "Command not found.")
  end.

End Help.

(** What [process] sends to acknowledge a request from a known server. *)
Definition acknowledgement (interaction : ChatInputCommandInteraction)
    (serverId : string) : list Event :=
  [ EditReply (SimpleEmbed "Processing command..." Neutral);
    SendLogMessage serverId (SlashCommandLogEmbed interaction) ].

(** What [process] does once the origin is known and the acknowledgement
    has gone out. *)
Definition afterAcknowledgement (delivery : Delivery) {AttendingServerV2 : Type}
    (this : CentralCommandDispatcher AttendingServerV2)
    (interaction : ChatInputCommandInteraction) (serverId : string) : Task unit :=
  match commandMethodMap this !! commandName interaction with
  | None =>
      editReply delivery
        (ErrorEmbed (CommandNotImplementedError "This command does not exist."))
  | Some commandMethod =>
      do! emit ConsoleLog;
      catch
        (await! successMsg <- commandMethod interaction;
         match successMsg with
         | Some successMsg =>
             if bool_decide (successMsg = "") then resolve tt
             else editReply delivery (SimpleEmbed successMsg Success)
         | None => resolve tt
         end)
        (fun err =>
           do! editReply delivery (ErrorEmbed err);
           detached (sendLogMessage delivery this serverId (ErrorLogEmbed err interaction)))
  end.

(** What has been sent once [process] has acknowledged a request from a
    known server. *)
Definition acknowledged (interaction : ChatInputCommandInteraction)
    (serverId : string) (sent : list Event) : list Event :=
  sent ++ [ EditReply (SimpleEmbed "Processing command..." Neutral);
            SendLogMessage serverId (SlashCommandLogEmbed interaction) ].

(** What [process] sends after a command method has settled. *)
Definition conclusion (interaction : ChatInputCommandInteraction)
    (serverId : string) (outcome : Settled UserViewableError (option string))
  : list Event :=
  match outcome with
  | Resolved (Some successMsg) =>
      if bool_decide (successMsg = "") then []
      else [EditReply (SimpleEmbed successMsg Success)]
  | Resolved None => []
  | Rejected err =>
      [ EditReply (ErrorEmbed err);
        SendLogMessage serverId (ErrorLogEmbed err interaction) ]
  end.

(** ** A small cast for concrete scenarios *)
Definition campus : Guild := {| guild_id := "guild-1"; guild_name := "Campus" |}.
Definition enqueueHelp : HelpMessage :=
  {| helpName := "enqueue"; message := SimpleEmbed "How to join a queue" Neutral |}.
Definition requestFrom (g : Guild) (commandName : string)
  : ChatInputCommandInteraction :=
  {| guild := Some g; commandName := commandName |}.
(** A dispatcher for the campus guild whose "help" answers about "enqueue"
    to everybody; every other method resolves with "done". *)
Definition campusDispatcher : CentralCommandDispatcher unit :=
  {| serverMap := {[ "guild-1" := tt ]};
     methods := fun key _ =>
                  if bool_decide (key = "help") then help reliable [] [] [enqueueHelp] "enqueue"
                  else resolve (Some "done") |}.

End DispatcherMethods.

(** * The composed tables, seen as a whole *)

Module HandlerMapsViews.

Import HandlerMaps.

Section Views.
Context {H : Type}.

(** The three skip-progress-message sets of a composition, and where each
    comes from in the built-in tables and in an extension. *)
Inductive SkipSlot := CommandSkips | ButtonSkips | SelectMenuSkips.

Definition baseSkip (slot : SkipSlot) (base : BaseMaps H) : gset string :=
  match slot with
  | CommandSkips =>
      CommandHandlerProps.skipProgressMessageCommands (baseYabobCommandMap base)
  | ButtonSkips =>
      ButtonHandlerProps.skipProgressMessageButtons (baseYabobButtonMethodMap base)
  | SelectMenuSkips =>
      SelectMenuHandlerProps.skipProgressMessageSelectMenus (baseYabobSelectMenuMap base)
  end.

Definition extensionSkip (slot : SkipSlot) (ext : InteractionExtension H)
  : gset string :=
  match slot with
  | CommandSkips => CommandHandlerProps.skipProgressMessageCommands (commandMap ext)
  | ButtonSkips => ButtonHandlerProps.skipProgressMessageButtons (buttonMap ext)
  | SelectMenuSkips =>
      SelectMenuHandlerProps.skipProgressMessageSelectMenus (selectMenuMap ext)
  end.

Definition completeSkip (slot : SkipSlot)
    (complete : CommandHandlerProps.t H * ButtonHandlerProps.t H *
                SelectMenuHandlerProps.t H * ModalSubmitHandlerProps.t H)
  : gset string :=
  match slot with
  | CommandSkips => CommandHandlerProps.skipProgressMessageCommands complete.1.1.1
  | ButtonSkips => ButtonHandlerProps.skipProgressMessageButtons complete.1.1.2
  | SelectMenuSkips =>
      SelectMenuHandlerProps.skipProgressMessageSelectMenus complete.1.2
  end.

(** The tables, among [tables], that have an entry under [key]. *)
Definition contributors (key : string) (tables : list (gmap string H))
  : list (gmap string H) :=
  filter (fun table => is_Some (table !! key)) tables.

(** No key of a slot is brought by two of the extensions. *)
Definition extensionsDisjoint (slot : Slot)
    (interactionExtensions : list (InteractionExtension H)) : Prop :=
  forall key,
    List.length (contributors key (map (extensionTable slot) interactionExtensions)) <= 1.

End Views.

(** An extension that brings one command of its own. *)
Definition calendarLike : InteractionExtension string :=
  {| commandMap :=
       {| CommandHandlerProps.methodMap := {[ "when_next" := "calendar when_next" ]};
          CommandHandlerProps.skipProgressMessageCommands := {[ "when_next" ]} |};
     buttonMap := emptyButtons;
     selectMenuMap := emptySelectMenus;
     modalMap := emptyModals |}.
Definition sheetLike : InteractionExtension string :=
  {| commandMap :=
       {| CommandHandlerProps.methodMap := {[ "stats" := "sheet stats" ]};
          CommandHandlerProps.skipProgressMessageCommands := ∅ |};
     buttonMap := emptyButtons;
     selectMenuMap := emptySelectMenus;
     modalMap := emptyModals |}.

End HandlerMapsViews.

(** * The processors, seen from a handler *)

Module ProcessorsViews.

Import HandlerMaps HandlerMapsViews Processors.

(** The skip set a component processor consults; form submissions have
    none and never get a progress reply. *)
Definition skipSlotOf (c : Component) : option SkipSlot :=
  match c with
  | ButtonComponent => Some ButtonSkips
  | SelectMenuComponent => Some SelectMenuSkips
  | ModalComponent => None
  end.

(** The session in which [processChatInputCommand] invokes the handler:
    a console line, the log-sink message and, unless the command is in the
    skip set, the progress reply. *)
Definition chatProgressed (base : BaseMaps Handler)
    (interactionExtensions : list (InteractionExtension Handler))
    (server : AttendingServer) (interaction : Interaction) (s : Session) : Session :=
  let skipped :=
    bool_decide (commandName interaction ∈
                   CommandHandlerProps.skipProgressMessageCommands
                     (completeCommandMap base interactionExtensions)) in
  {| replied := replied s || negb skipped;
     sent := sent s ++
             [Log "logSlashCommand";
              SendLogMessage (serverGuildId server) SlashCommandLogEmbed] ++
             (if skipped then []
              else [Reply (SimpleEmbed
                             ("Processing command `" +:+ commandName interaction +:+
                              match subcommand interaction with
                              | Some sub => if bool_decide (sub = "") then "" else " " +:+ sub
                              | None => ""
                              end +:+ "` ...")) true]) |}.

(** A slash command sent from the campus guild, and built-in tables whose
    only entry is a "start" command that rejects. *)
Definition typed (commandName : string) : Interaction :=
  {| kind := ChatInputCommand; isRepliable := true; inCachedGuild := true;
     guildId := Some "guild-1"; customId := "";
     commandName := commandName; subcommand := None |}.
Definition startRejects : BaseMaps Handler :=
  commandsOnly {[ "start" := fun _ : Interaction => reject queueClosed ]}.

(** An extension whose only contribution is to put the "join" button in the
    skip set. *)
Definition quietJoin : InteractionExtension Handler :=
  {| commandMap :=
       {| CommandHandlerProps.methodMap := ∅;
          CommandHandlerProps.skipProgressMessageCommands := ∅ |};
     buttonMap :=
       {| ButtonHandlerProps.guildMethodMap := {| queue := ∅; other := ∅ |};
          ButtonHandlerProps.dmMethodMap := ∅;
          ButtonHandlerProps.skipProgressMessageButtons := {[ "join" ]} |};
     selectMenuMap := emptySelectMenus;
     modalMap := emptyModals |}.

End ProcessorsViews.

(** * The session-calendar extension ([CalendarInteractionExtension]) *)

Module Calendar.

(** ** JS string operations

    Indices count characters from 0; [-1] is [indexOf]'s "not found". *)

Fixpoint findChar (c : Ascii.ascii) (s : string) : option nat :=
  match s with
  | EmptyString => None
  | String a s' => if bool_decide (a = c) then Some 0 else S <$> findChar c s'
  end.

(** The character [" "]. *)
Definition space : Ascii.ascii := Ascii.ascii_of_nat 32.

(** [s.indexOf(c)] for a one-character [c]. *)
Definition indexOf (c : Ascii.ascii) (s : string) : Z :=
  match findChar c s with
  | Some i => Z.of_nat i
  | None => -1
  end.

Fixpoint stake (n : nat) (s : string) : string :=
  match n, s with
  | S n', String a s' => String a (stake n' s')
  | _, _ => EmptyString
  end.

Fixpoint sdrop (n : nat) (s : string) : string :=
  match n, s with
  | S n', String _ s' => sdrop n' s'
  | _, _ => s
  end.

(** An index argument is clamped into [0 .. length]. *)
Definition clamp (i : Z) (s : string) : nat :=
  Z.to_nat (Z.min (Z.max i 0) (Z.of_nat (String.length s))).

(** [s.substring(start, end)]: both ends clamped, then swapped if needed. *)
Definition substring (s : string) (start finish : Z) : string :=
  let a := clamp start s in
  let b := clamp finish s in
  stake (Nat.max a b - Nat.min a b) (sdrop (Nat.min a b) s).

(** [s.substring(start)] *)
Definition substringFrom (s : string) (start : Z) : string :=
  substring s start (Z.of_nat (String.length s)).

(** [s.slice(0, end)]: a negative [end] counts from the end of [s]. *)
Definition slice0 (s : string) (finish : Z) : string :=
  let len := Z.of_nat (String.length s) in
  let e := if (finish <? 0)%Z then Z.max (len + finish) 0 else Z.min finish len in
  stake (Z.to_nat e) s.

(** [parts.join(separator)] *)
Fixpoint join (separator : string) (parts : list string) : string :=
  match parts with
  | [] => ""
  | [part] => part
  | part :: parts' => part +:+ separator +:+ join separator parts'
  end.

(** ** Replies *)

Inductive CalendarError :=
| CommandNotImplementedError (message : string)
| CommandParseError (message : string)
| CalendarConnectionError (message : string)
| OtherError (message : string).

Inductive EmbedColor := Neutral | Success | NoColor.

Inductive Embed :=
| SimpleEmbed (message : string) (color : EmbedColor) (description : string)
| ErrorEmbed (err : CalendarError).

(** What leaves the extension, oldest first.  Only what was delivered is
    recorded. *)
Inductive Event :=
| Reply (e : Embed) (ephemeral : bool)
| EditReply (e : Embed)
| ConsoleLog.

Abbreviation Task A := (Promise (list Event) CalendarError A).

(** [console.log]: nothing to await. *)
Definition emit (ev : Event) : Task unit := modify (fun sent => sent ++ [ev]).

(** How a send through the transport ([interaction.reply],
    [interaction.editReply]) settles, given what has been delivered so
    far: [None] when it resolves, [Some err] when it rejects with [err]. *)
Definition Delivery : Type := list Event -> Event -> option CalendarError.

Definition send (delivery : Delivery) (ev : Event) : Task unit :=
  fun sent =>
    match delivery sent ev with
    | None => (Resolved tt, sent ++ [ev])
    | Some err => (Rejected err, sent)
    end.

Definition reply (delivery : Delivery) (e : Embed) (ephemeral : bool) : Task unit :=
  send delivery (Reply e ephemeral).
Definition editReply (delivery : Delivery) (e : Embed) : Task unit :=
  send delivery (EditReply e).

(** Each of [events], sent in turn after [sent], is delivered. *)
Fixpoint delivers (delivery : Delivery) (sent events : list Event) : Prop :=
  match events with
  | [] => True
  | ev :: events =>
      delivery sent ev = None /\ delivers delivery (sent ++ [ev]) events
  end.

(** A rejection that is one of the transport's. *)
Definition rejectedSend (delivery : Delivery) (err : CalendarError) : Prop :=
  exists sent ev, delivery sent ev = Some err.

(** [.then(async successMsg => successMsg && await interaction.editReply(...))
     .catch(async err => await interaction.editReply(ErrorEmbed(err)))] *)
Definition conclude (delivery : Delivery) (method : Task (option string)) : Task unit :=
  catch
    (await! successMsg <- method;
     match successMsg with
     | Some successMsg =>
         if bool_decide (successMsg = "") then resolve tt
         else editReply delivery (SimpleEmbed successMsg Success "")
     | None => resolve tt
     end)
    (fun err => editReply delivery (ErrorEmbed err)).

(** An extension instance: the calendar listeners of its guild, by queue
    name ([serverIdStateMap.get(guild.id)?.listeners], [None] when the
    guild has no state), each standing for its
    [onCalendarExtensionStateChange]; and the three command methods, whose
    bodies call the calendar service and the shared validations. *)
Record CalendarInteractionExtension := {
  listeners : option (gmap string (Task unit));
  updateCalendarId : Task (option string);
  listUpComingHoursMethod : Task (option string);
  makeParsableCalendarTitle : Task (option string)
}.

Definition requestCalendarRefresh (this : CalendarInteractionExtension)
    (queueName : string) : Task (option string) :=
  do! match listeners this with
      | Some listeners =>
          match listeners !! queueName with
          | Some onCalendarExtensionStateChange => onCalendarExtensionStateChange
          | None => resolve tt
          end
      | None => resolve tt
      end;
  resolve (Some ("Successfully refreshed upcoming hours for " +:+ queueName)).

Definition commandMethodMap (this : CalendarInteractionExtension)
  : gmap string (Task (option string)) :=
  list_to_map [ ("set_calendar", updateCalendarId this);
                ("when_next", listUpComingHoursMethod this);
                ("make_calendar_string", makeParsableCalendarTitle this) ].

Definition buttonMethodMap (this : CalendarInteractionExtension)
  : gmap string (string -> Task (option string)) :=
  list_to_map [ ("refresh", fun queueName => requestCalendarRefresh this queueName) ].

Definition processCommand (delivery : Delivery) (this : CalendarInteractionExtension)
    (commandName : string) : Task unit :=
  do! reply delivery (SimpleEmbed "Processing command..." Neutral "") true;
  match commandMethodMap this !! commandName with
  | None =>
      editReply delivery
        (ErrorEmbed (CommandNotImplementedError "This external command does not exist."))
  | Some commandMethod =>
      do! emit ConsoleLog;
      conclude delivery commandMethod
  end.

Definition processButton (delivery : Delivery) (this : CalendarInteractionExtension)
    (customId : string) : Task unit :=
  do! reply delivery (SimpleEmbed "Processing button..." Neutral "") true;
  let delimiterPosition := indexOf space customId in
  let interactionName := substring customId 0 delimiterPosition in
  let queueName := substringFrom customId (delimiterPosition + 1) in
  match buttonMethodMap this !! interactionName with
  | None =>
      editReply delivery
        (ErrorEmbed (CommandNotImplementedError "This external command does not exist."))
  | Some buttonMethod =>
      do! emit ConsoleLog;
      conclude delivery (buttonMethod queueName)
  end.

(** The button processor on an id already split into the name that is
    looked up and the queue name that is handed to the method found. *)
Definition processNamedButton (delivery : Delivery)
    (this : CalendarInteractionExtension) (interactionName queueName : string)
  : Task unit :=
  do! reply delivery (SimpleEmbed "Processing button..." Neutral "") true;
  match buttonMethodMap this !! interactionName with
  | None =>
      editReply delivery
        (ErrorEmbed (CommandNotImplementedError "This external command does not exist."))
  | Some buttonMethod =>
      do! emit ConsoleLog;
      conclude delivery (buttonMethod queueName)
  end.

(** ** The upcoming-hours embed of [listUpComingHours] *)

(** A view model of [getUpComingTutoringEvents]; dates are milliseconds
    since the epoch. *)
Record UpComingSessionViewModel := {
  discordId : option string;
  displayName : string;
  start : Z;
  finish : Z
}.

Definition tab : string := String (Ascii.ascii_of_nat 9) EmptyString.
Definition newline : string := String (Ascii.ascii_of_nat 10) EmptyString.

(** [`<t:${date.getTime().toString().slice(0, -3)}:R>`] *)
Definition relativeTimestamp (time : Z) : string :=
  "<t:" +:+ slice0 (pretty time) (-3) +:+ ":R>".

Definition sessionLine (viewModel : UpComingSessionViewModel) : string :=
  "**" +:+
  match discordId viewModel with
  | Some discordId => "<@" +:+ discordId +:+ ">"
  | None => displayName viewModel
  end +:+ "**" +:+ tab +:+ "|" +:+ tab +:+
  "Start: " +:+ relativeTimestamp (start viewModel) +:+ tab +:+ "|" +:+ tab +:+
  "End: " +:+ relativeTimestamp (finish viewModel).

Definition upcomingHoursEmbed (queueName : string)
    (viewModels : list UpComingSessionViewModel) : Embed :=
  SimpleEmbed
    ("Upcoming Hours for " +:+ queueName) NoColor
    (if bool_decide (0 < List.length viewModels) then
       join newline (map sessionLine viewModels)
     else "There are no upcoming sessions for " +:+ queueName +:+ " in the next 7 days.").

(** [listUpComingHours]: the queue argument and the events come from the
    shared validation and the calendar service. *)
Definition listUpComingHours (delivery : Delivery)
    (hasValidQueueArgument : Task string)
    (getUpComingTutoringEvents : string -> Task (list UpComingSessionViewModel))
  : Task (option string) :=
  await! queueName <- hasValidQueueArgument;
  await! viewModels <- getUpComingTutoringEvents queueName;
  do! editReply delivery (upcomingHoursEmbed queueName viewModels);
  resolve None.

(** The characters of a string. *)
Fixpoint chars (s : string) : list Ascii.ascii :=
  match s with
  | EmptyString => []
  | String a s' => a :: chars s'
  end.

(** ** A small cast for concrete scenarios *)
Definition quietGuild : CalendarInteractionExtension :=
  {| listeners := Some ∅;
     updateCalendarId := resolve (Some "updated");
     listUpComingHoursMethod := resolve None;
     makeParsableCalendarTitle := reject (CommandParseError "no role") |}.

(** A transport that delivers everything, and one that is down. *)
Definition reliable : Delivery := fun _ _ => None.
Definition down : Delivery := fun _ _ => Some (OtherError "Unknown interaction").

End Calendar.

(** * Properties of the help queue *)

Module HelpQueueFacts.

Import HelpQueue.

Lemma has_true {V} (m : gmap string V) k : has m k = true <-> is_Some (m !! k).
Proof.
  unfold has. destruct (m !! k) eqn:E; split; intros Hk; eauto.
  - discriminate.
  - destruct Hk as [x Hx]. discriminate.
Qed.

Lemma has_false {V} (m : gmap string V) k : has m k = false <-> m !! k = None.
Proof. unfold has. destruct (m !! k); split; congruence. Qed.

(** ** Restoring the line from a backup *)

Lemma restore_from ch (l : list StudentBackup) (acc : list Helpee.t) :
  foldl
    (fun students studentBackup =>
       match members ch !! memberId studentBackup with
       | Some correspondingMember =>
           students ++ [ {| Helpee.waitStart := backupWaitStart studentBackup;
                            Helpee.upNext := backupUpNext studentBackup;
                            Helpee.member := correspondingMember |} ]
       | None => students
       end) acc l
  = acc ++ omap (restored ch) l.
Proof.
  revert acc. induction l as [|sb l IH]; intros acc; simpl.
  - by rewrite app_nil_r.
  - rewrite IH. unfold restored at 2.
    destruct (members ch !! memberId sb); simpl; [|done].
    by rewrite <- app_assoc.
Qed.

Lemma restore_omap ch b : restore ch b = omap (restored ch) (studentsInQueue b).
Proof. unfold restore. by rewrite restore_from. Qed.

Lemma omap_restored_filter ch (l : list StudentBackup) :
  Forall2
    (fun s sb => Helpee.waitStart s = backupWaitStart sb /\
                 Helpee.upNext s = backupUpNext sb /\
                 members ch !! memberId sb = Some (Helpee.member s))
    (omap (restored ch) l) (filter (resolvable ch) l).
Proof.
  induction l as [|sb l IH]; simpl; [constructor|].
  rewrite filter_cons.
  destruct (decide (resolvable ch sb)) as [[m Hm]|Hno].
  - unfold restored at 1. rewrite Hm. simpl. constructor; [|exact IH].
    by rewrite Hm.
  - unfold restored at 1.
    destruct (members ch !! memberId sb) as [m|] eqn:Hm; simpl; [|exact IH].
    exfalso. apply Hno. unfold resolvable. eauto.
Qed.

(** C8. Constructing a queue from a backup list and a current membership
    yields a waiting line that matches, entry by entry and in order, the
    sub-list of the backup made of exactly the entries whose principal
    resolves in the membership; the other entries are dropped and the
    constructor never fails. *)
Theorem restore_is_resolvable_subsequence
    (ch : QueueChannel) (b : QueueBackup) :
  let kept := filter (resolvable ch) (studentsInQueue b) in
  sublist kept (studentsInQueue b) /\
  (forall sb, sb ∈ kept <-> sb ∈ studentsInQueue b /\ resolvable ch sb) /\
  Forall2
    (fun s sb => Helpee.waitStart s = backupWaitStart sb /\
                 Helpee.upNext s = backupUpNext sb /\
                 members ch !! memberId sb = Some (Helpee.member s))
    (students (new ch (Some b))) kept /\
  List.length (students (new ch (Some b))) = List.length kept.
Proof.
  intros kept. subst kept. split; [apply sublist_filter|].
  split.
  { intros sb. rewrite list_elem_of_filter. tauto. }
  assert (HF := omap_restored_filter ch (studentsInQueue b)).
  simpl. rewrite restore_omap. split; [exact HF|].
  eapply Forall2_length, HF.
Qed.

(** Three backed-up students, of whom the second has left the channel. *)
Example restore_drops_the_absent :
  let ch := {| members := {[ "2001" := student1; "2002" := student2 ]};
               queueName := "Office Hours"; parentCategoryId := "42" |} in
  let entry memberId t next :=
    {| memberId := memberId; backupWaitStart := t; backupUpNext := next |} in
  let b := {| studentsInQueue :=
                [entry "2002" 5%Z true; entry "3003" 6%Z false; entry "2001" 7%Z false] |} in
  students (new ch (Some b)) =
    [ {| Helpee.waitStart := 5; Helpee.upNext := true; Helpee.member := student2 |};
      {| Helpee.waitStart := 7; Helpee.upNext := false; Helpee.member := student1 |} ].
Proof. vm_compute. reflexivity. Qed.

(** ** [enqueue] *)

Lemma find_id_None (l : list Helpee.t) (principal : string) :
  List.find (fun s => bool_decide (id (Helpee.member s) = principal)) l = None
  <-> ~ exists s, s ∈ l /\ id (Helpee.member s) = principal.
Proof.
  induction l as [|x l IH]; simpl.
  - split; [|done]. intros _ (s & Hs & _). by apply elem_of_nil in Hs.
  - destruct (bool_decide_reflect (id (Helpee.member x) = principal)) as [Hx|Hx].
    + split; [done|]. intros Hno. exfalso. apply Hno. exists x. split; [left|done].
    + rewrite IH. split; intros Hno (s & Hs & Hid); apply Hno.
      * apply elem_of_cons in Hs as [->|Hs]; [done|]. eauto.
      * exists s. split; [by right|done].
Qed.

Lemma run_get_if {A} (q : HelpQueueV2) (k : HelpQueueV2 -> Method A) :
  (await! q' <- get; k q') q = k q q.
Proof. reflexivity. Qed.

(** C5. [enqueue] rejects with "Queue is not open." on a closed queue,
    with "You are already in the queue." on an open queue whose line holds
    the principal, and with "You can't enqueue yourself while helping." on
    an open queue where the principal is a helper and not in the line; each
    of these leaves the queue exactly as it was.  Otherwise the line grows
    at its tail by exactly one requester, whose [upNext] is true iff the
    line was empty, and the call resolves when its collaborators do. *)
Theorem enqueue_guards_then_append
    (env : Env) (q : HelpQueueV2) (studentMember : GuildMember) :
  let r := enqueue env studentMember q in
  (isOpen q = false ->
     r = (Rejected (QueueError "Queue is not open." (name q)), q)) /\
  (isOpen q = true -> isRequester q (id studentMember) ->
     r = (Rejected (QueueError "You are already in the queue." (name q)), q)) /\
  (isOpen q = true -> ~ isRequester q (id studentMember) ->
   isHelper q (id studentMember) ->
     r = (Rejected (QueueError "You can't enqueue yourself while helping." (name q)), q)) /\
  (isOpen q = true -> ~ isRequester q (id studentMember) ->
   ~ isHelper q (id studentMember) ->
     exists student,
       store r = set_students (students q ++ [student]) q /\
       Helpee.member student = studentMember /\
       Helpee.waitStart student = now env /\
       (Helpee.upNext student = true <-> students q = []) /\
       (collaboratorsResolve env -> settled r = Resolved tt)).
Proof.
  intros r. subst r. unfold enqueue. rewrite run_get_if.
  repeat split.
  - intros ->. reflexivity.
  - intros -> Hq. simpl.
    rewrite bool_decide_eq_true_2; [reflexivity|].
    intros Hnone. apply find_id_None in Hnone. by apply Hnone.
  - intros -> Hq Hh. simpl.
    rewrite bool_decide_eq_false_2.
    2:{ intros Hne. apply Hne. by apply find_id_None. }
    apply has_true in Hh. rewrite Hh. reflexivity.
  - intros -> Hq Hh. simpl.
    rewrite bool_decide_eq_false_2.
    2:{ intros Hne. apply Hne. by apply find_id_None. }
    assert (has (helpers q) (id studentMember) = false) as ->.
    { apply has_false. unfold isHelper in Hh.
      destruct (helpers q !! id studentMember) eqn:E; [|done].
      exfalso. apply Hh. eauto. }
    exists (newHelpee env q studentMember).
    split.
    { unfold bind, modify, awaitFanOut, triggerRender, store, resolve, reject.
      simpl. destruct (fanOutResolves env), (renderResolves env); reflexivity. }
    split; [reflexivity|]. split; [reflexivity|].
    split.
    { simpl. rewrite bool_decide_eq_true. destruct (students q); simpl; split; try done. }
    intros [Hf Hr].
    unfold bind, modify, awaitFanOut, triggerRender, settled. simpl.
    rewrite Hf, Hr. reflexivity.
Qed.


Lemma enqueue_guards_then_append_witness :
  let closed := new officeHours None in
  let opened := store (openQueue (calm 1) tutor false closed) in
  let queued := store (enqueue (calm 2) student1 opened) in
  enqueue (calm 2) student1 closed =
    (Rejected (QueueError "Queue is not open." "Office Hours"), closed) /\
  enqueue (calm 3) student1 queued =
    (Rejected (QueueError "You are already in the queue." "Office Hours"), queued) /\
  enqueue (calm 2) tutor opened =
    (Rejected (QueueError "You can't enqueue yourself while helping." "Office Hours"),
     opened) /\
  settled (enqueue (calm 2) student1 opened) = Resolved tt.
Proof.
  intros closed opened queued.
  assert (~ isRequester opened (id tutor)) as Hnot_tutor.
  { intros (s & Hs & _). vm_compute in Hs. by apply elem_of_nil in Hs. }
  assert (~ isRequester opened (id student1)) as Hnot_student.
  { intros (s & Hs & _). vm_compute in Hs. by apply elem_of_nil in Hs. }
  assert (isRequester queued (id student1)) as Hqueued.
  { exists (newHelpee (calm 2) opened student1). split; [|reflexivity].
    vm_compute. left. }
  assert (isHelper opened (id tutor)) as Hhelper.
  { unfold isHelper. vm_compute. eauto. }
  assert (~ isHelper opened (id student1)) as Hnot_helper.
  { unfold isHelper. vm_compute. intros [x Hx]. discriminate Hx. }
  split; [exact (proj1 (enqueue_guards_then_append (calm 2) closed student1) eq_refl)|].
  split.
  { exact (proj1 (proj2 (enqueue_guards_then_append (calm 3) queued student1))
             eq_refl Hqueued). }
  split.
  { exact (proj1 (proj2 (proj2 (enqueue_guards_then_append (calm 2) opened tutor)))
             eq_refl Hnot_tutor Hhelper). }
  destruct (proj2 (proj2 (proj2 (enqueue_guards_then_append (calm 2) opened student1)))
              eq_refl Hnot_student Hnot_helper) as (student & _ & _ & _ & _ & Hres).
  apply Hres. split; reflexivity.
Defined.

(** ** [dequeueWithHelper] *)

Ltac run_method :=
  unfold bind, get, modify, resolve, reject, awaitFanOut, triggerRender,
    store, settled; simpl.




(** ** [removeStudent] *)

Lemma findIndex_first {A} (p : A -> bool) (before : list A) (x : A) (after : list A) :
  p x = true ->
  (forall y, y ∈ before -> p y = false) ->
  findIndex p (before ++ x :: after) = Some (List.length before).
Proof.
  intros Hx. induction before as [|b before IH]; intros Hb; simpl.
  - by rewrite Hx.
  - rewrite (Hb b) by left. rewrite IH; [done|].
    intros y Hy. apply Hb. by right.
Qed.

Lemma findIndex_None {A} (p : A -> bool) (l : list A) :
  (forall y, y ∈ l -> p y = false) -> findIndex p l = None.
Proof.
  induction l as [|b l IH]; intros Hl; simpl; [done|].
  rewrite (Hl b) by left. rewrite IH; [done|].
  intros y Hy. apply Hl. by right.
Qed.

Lemma splice1_middle {A} (before : list A) (x : A) (after : list A) :
  splice1 (List.length before) (before ++ x :: after) = before ++ after.
Proof.
  unfold splice1. induction before as [|b before IH]; simpl; [done|].
  by rewrite IH.
Qed.

(** C10. When the line is [before ++ s :: after] with [s] the first entry
    whose member id is the target's, [removeStudent] leaves the line
    [before ++ after]: only that entry goes and the others keep their
    order; helpers, notification group and [isOpen] are unchanged, and the
    call resolves when its collaborators do.  When no entry has the
    target's id it rejects with "<displayName> is not in the queue" and
    the whole queue, the line included, is unchanged. *)
Theorem removeStudent_first_match_only
    (env : Env) (q : HelpQueueV2) (targetStudent : GuildMember) :
  (forall before s after,
      students q = before ++ s :: after ->
      id (Helpee.member s) = id targetStudent ->
      (forall x, x ∈ before -> id (Helpee.member x) <> id targetStudent) ->
      let r := removeStudent env targetStudent q in
      students (store r) = before ++ after /\
      helpers (store r) = helpers q /\
      notifGroup (store r) = notifGroup q /\
      isOpen (store r) = isOpen q /\
      (collaboratorsResolve env -> settled r = Resolved tt)) /\
  (~ isRequester q (id targetStudent) ->
     removeStudent env targetStudent q =
       (Rejected (QueueError (displayName targetStudent +:+ " is not in the queue")
                    (name q)), q)).
Proof.
  split.
  - intros before s after Hs Hid Hbefore r. subst r.
    unfold removeStudent. rewrite run_get_if, Hs.
    rewrite findIndex_first.
    2:{ by apply bool_decide_eq_true_2. }
    2:{ intros y Hy. apply bool_decide_eq_false_2. by apply Hbefore. }
    run_method. rewrite Hs, splice1_middle.
    destruct (fanOutResolves env) eqn:Hf, (renderResolves env) eqn:Hr; simpl;
      (repeat split; try reflexivity);
      intros [? ?]; congruence.
  - intros Hno. unfold removeStudent. rewrite run_get_if.
    rewrite findIndex_None; [reflexivity|].
    intros y Hy. apply bool_decide_eq_false_2. intros Hid.
    apply Hno. exists y. done.
Qed.


Lemma removeStudent_first_match_only_witness :
  let waiting (m : GuildMember) (t : Z) (next : bool) :=
    {| Helpee.waitStart := t; Helpee.upNext := next; Helpee.member := m |} in
  let q := {| helpers := ∅;
              students := [waiting student1 2%Z true; waiting student2 3%Z false];
              notifGroup := ∅; isOpen := false; queueChannel := officeHours |} in
  students (store (removeStudent (calm 4) student2 q)) = [waiting student1 2%Z true] /\
  removeStudent (calm 4) tutor q =
    (Rejected (QueueError "Tutor is not in the queue" "Office Hours"), q).
Proof.
  intros waiting q.
  destruct (removeStudent_first_match_only (calm 4) q student2) as [Hremove _].
  destruct (removeStudent_first_match_only (calm 4) q tutor) as [_ Habsent].
  split.
  - refine (proj1 (Hremove [waiting student1 2%Z true] (waiting student2 3%Z false) []
                     eq_refl eq_refl _)).
    intros x Hx. apply list_elem_of_singleton in Hx. subst x. simpl. discriminate.
  - apply Habsent. intros (s & Hs & Hid).
    apply elem_of_cons in Hs as [->|Hs]; [discriminate Hid|].
    apply list_elem_of_singleton in Hs. subst s. discriminate Hid.
Defined.

(** ** What each call leaves behind *)

Lemma openQueue_store env m notify q :
  store (openQueue env m notify q) =
    if has (helpers q) (id m) then q
    else set_helpers
           (<[id m := {| Helper.helpStart := now env; Helper.helpEnd := None;
                         Helper.helpedMembers := []; Helper.member := m |}]> (helpers q))
           (set_isOpen true q).
Proof.
  unfold openQueue. rewrite run_get_if.
  destruct (has (helpers q) (id m)); [reflexivity|].
  run_method. by destruct (renderResolves env).
Qed.

Lemma closeQueue_store env m q :
  store (closeQueue env m q) =
    if negb (isOpen q) then q
    else match helpers q !! id m with
         | None => q
         | Some _ =>
             let hs := delete (id m) (helpers q) in
             set_isOpen (bool_decide (0 < size hs)) (set_helpers hs q)
         end.
Proof.
  unfold closeQueue. rewrite run_get_if.
  destruct (isOpen q); simpl; [|reflexivity].
  destruct (helpers q !! id m); [|reflexivity].
  run_method. by destruct (fanOutResolves env), (renderResolves env).
Qed.

Lemma enqueue_store env m q :
  store (enqueue env m q) = q \/
  (~ isHelper q (id m) /\
   store (enqueue env m q) = set_students (students q ++ [newHelpee env q m]) q).
Proof.
  unfold enqueue. rewrite run_get_if.
  destruct (isOpen q); simpl; [|by left].
  destruct (bool_decide _); [by left|].
  destruct (has (helpers q) (id m)) eqn:Hh; [by left|].
  right. split.
  { apply has_false in Hh. intros [x Hx]. unfold HelpQueue.helpers in *. congruence. }
  run_method. by destruct (fanOutResolves env), (renderResolves env).
Qed.

Lemma dequeueWithHelper_store env m q :
  store (dequeueWithHelper env m q) = q \/
  exists firstStudent rest helper,
    students q = firstStudent :: rest /\
    helpers q !! id m = Some helper /\
    store (dequeueWithHelper env m q) =
      set_helpers (<[id m := served helper firstStudent]> (helpers q))
        (set_students rest q).
Proof.
  unfold dequeueWithHelper. rewrite run_get_if.
  destruct (isOpen q); simpl; [|by left].
  destruct (students q) as [|firstStudent rest] eqn:Hs; [by left|].
  destruct (helpers q !! id m) as [helper|] eqn:Hh; [|by left].
  right. exists firstStudent, rest, helper. repeat split.
  run_method.
  by destruct (fanOutResolves env), (renderResolves env).
Qed.

Lemma removeStudent_store env m q :
  exists l, sublist l (students q) /\
            store (removeStudent env m q) = set_students l q.
Proof.
  unfold removeStudent. rewrite run_get_if.
  destruct (findIndex _ (students q)) as [idx|].
  - exists (splice1 idx (students q)). split.
    + unfold splice1. rewrite <- (take_drop idx (students q)) at 3.
      apply sublist_app; [done|].
      replace (S idx) with (idx + 1) by lia.
      rewrite <- drop_drop. apply sublist_drop.
    + run_method. by destruct (fanOutResolves env), (renderResolves env).
  - exists (students q). split; [done|]. by destruct q.
Qed.

Lemma removeAllStudents_store env q :
  exists l, sublist l (students q) /\
            store (removeAllStudents env q) = set_students l q.
Proof.
  unfold removeAllStudents. run_method.
  destruct (fanOutResolves env); simpl.
  - exists []. split; [apply sublist_nil_l|].
    by destruct (renderResolves env).
  - exists (students q). split; [done|]. by destruct q.
Qed.

Lemma addToNotifGroup_store m q :
  exists g, store (addToNotifGroup m q) = set_notifGroup g q.
Proof.
  unfold addToNotifGroup. rewrite run_get_if.
  destruct (has (notifGroup q) (id m)).
  - exists (notifGroup q). by destruct q.
  - eexists. reflexivity.
Qed.

Lemma removeFromNotifGroup_store m q :
  exists g, store (removeFromNotifGroup m q) = set_notifGroup g q.
Proof.
  unfold removeFromNotifGroup. rewrite run_get_if.
  destruct (has (notifGroup q) (id m)); simpl.
  - eexists. reflexivity.
  - exists (notifGroup q). by destruct q.
Qed.


(** ** [isOpen] and the helper set *)

Lemma openIffHelpers_new ch backupData : openIffHelpers (new ch backupData).
Proof. unfold openIffHelpers. simpl. by rewrite map_size_empty. Qed.

Lemma openIffHelpers_after env c q :
  openIffHelpers q -> openIffHelpers (after env c q).
Proof.
  unfold openIffHelpers. intros Hq. destruct c as [m notify|m|m|m|m| |m|m]; simpl.
  - rewrite openQueue_store.
    destruct (has (helpers q) (id m)) eqn:Hh; [done|]. simpl.
    apply has_false in Hh. rewrite map_size_insert_None by done.
    symmetry. apply bool_decide_eq_true_2. lia.
  - rewrite closeQueue_store.
    destruct (isOpen q) eqn:Ho; simpl; [|congruence].
    destruct (helpers q !! id m); [reflexivity|congruence].
  - destruct (enqueue_store env m q) as [->|[_ ->]]; done.
  - destruct (dequeueWithHelper_store env m q)
      as [->|(firstStudent & rest & helper & _ & Hh & ->)]; [done|].
    simpl. by rewrite map_size_insert_Some.
  - destruct (removeStudent_store env m q) as (l & _ & ->). done.
  - destruct (removeAllStudents_store env q) as (l & _ & ->). done.
  - destruct (addToNotifGroup_store m q) as (g & ->). done.
  - destruct (removeFromNotifGroup_store m q) as (g & ->). done.
Qed.

Lemma reachable_openIffHelpers q : reachable q -> openIffHelpers q.
Proof.
  induction 1 as [ch backupData|env c q _ IH].
  - apply openIffHelpers_new.
  - by apply openIffHelpers_after.
Qed.

(** C4. In every reachable state [isOpen] equals [helpers.size > 0].
    Opening with a principal who is not yet a helper adds that helper and
    leaves [isOpen] true; closing with a helper removes that helper, and
    leaves [isOpen] false when it was the last one and true when others
    remain. *)
Theorem isOpen_iff_some_helper (q : HelpQueueV2) :
  reachable q ->
  isOpen q = bool_decide (0 < size (helpers q)) /\
  (forall env helperMember notify,
      ~ isHelper q (id helperMember) ->
      let q' := store (openQueue env helperMember notify q) in
      isHelper q' (id helperMember) /\
      size (helpers q') = S (size (helpers q)) /\
      isOpen q' = true) /\
  (forall env helperMember,
      isHelper q (id helperMember) ->
      let q' := store (closeQueue env helperMember q) in
      ~ isHelper q' (id helperMember) /\
      S (size (helpers q')) = size (helpers q) /\
      (size (helpers q) = 1 -> isOpen q' = false) /\
      (1 < size (helpers q) -> isOpen q' = true)).
Proof.
  intros Hreach. pose proof (reachable_openIffHelpers q Hreach) as Hinv.
  unfold openIffHelpers in Hinv. split; [exact Hinv|]. split.
  - intros env m notify Hno q'. subst q'. rewrite openQueue_store.
    assert (helpers q !! id m = None) as Hnone.
    { destruct (helpers q !! id m) eqn:E; [|done]. exfalso. apply Hno.
      unfold isHelper. rewrite E. eauto. }
    assert (has (helpers q) (id m) = false) as -> by by apply has_false.
    unfold isHelper. simpl. rewrite lookup_insert_eq.
    rewrite map_size_insert_None by done. eauto.
  - intros env m [helper Hh] q'. subst q'. rewrite closeQueue_store.
    assert (0 < size (helpers q)) as Hpos.
    { destruct (decide (size (helpers q) = 0)) as [Hz|Hz]; [|lia].
      apply map_size_empty_inv in Hz. rewrite Hz in Hh.
      by rewrite lookup_empty in Hh. }
    rewrite Hinv, bool_decide_eq_true_2 by done. simpl. rewrite Hh.
    unfold isHelper. simpl. rewrite lookup_delete_eq.
    pose proof (map_size_delete_Some (id m) (helpers q) (ltac:(eauto))) as Hsz.
    split; [by intros [x Hx]|]. split; [lia|].
    split; intros Hn.
    + apply bool_decide_eq_false_2. lia.
    + apply bool_decide_eq_true_2. lia.
Qed.


Lemma isOpen_iff_some_helper_witness :
  let q := after (calm 1) (OpenQueue tutor false) (new officeHours None) in
  reachable q /\ isOpen q = bool_decide (0 < size (helpers q)).
Proof.
  intros q.
  assert (reachable q) as Hq by (subst q; repeat constructor).
  split; [exact Hq|]. exact (proj1 (isOpen_iff_some_helper q Hq)).
Defined.

(** ** Helpers and requesters *)

Lemma reachable_run calls q : reachable q -> reachable (run calls q).
Proof.
  revert q. induction calls as [|[env c] calls IH]; intros q Hq; simpl; [done|].
  apply IH. by constructor.
Qed.

Lemma isRequester_sublist q l principal :
  sublist l (students q) ->
  isRequester (set_students l q) principal -> isRequester q principal.
Proof.
  intros Hl (s & Hs & Hid). exists s. split; [|done].
  eapply sublist_subseteq; eauto.
Qed.

(** Every call other than [openQueue] keeps the two roles apart;
    [enqueue] does so through its helper guard. *)
Lemma rolesExclusive_kept_by_other_calls env c q :
  (forall m notify, c <> OpenQueue m notify) ->
  rolesExclusive q -> rolesExclusive (after env c q).
Proof.
  unfold rolesExclusive. intros Hc Hq p [Hh Hr].
  destruct c as [m notify|m|m|m|m| |m|m]; simpl in *.
  - by destruct (Hc m notify).
  - rewrite closeQueue_store in Hh, Hr.
    destruct (isOpen q); simpl in *; [|by apply (Hq p)].
    destruct (helpers q !! id m) eqn:Hm; [|by apply (Hq p)].
    apply (Hq p). split; [|exact Hr].
    unfold isHelper in *. simpl in Hh.
    destruct (decide (id m = p)) as [<-|Hne].
    + rewrite lookup_delete_eq in Hh. by destruct Hh.
    + by rewrite lookup_delete_ne in Hh.
  - destruct (enqueue_store env m q) as [Heq|[Hno Heq]]; rewrite Heq in Hh, Hr.
    + by apply (Hq p).
    + destruct Hr as (s & Hs & Hid). simpl in Hs.
      apply elem_of_app in Hs as [Hs|Hs].
      * apply (Hq p). split; [exact Hh|]. by exists s.
      * apply list_elem_of_singleton in Hs. subst s. simpl in Hid. subst p.
        by apply Hno.
  - destruct (dequeueWithHelper_store env m q)
      as [Heq|(firstStudent & rest & helper & Hs & Hm & Heq)];
      rewrite Heq in Hh, Hr.
    + by apply (Hq p).
    + apply (Hq p). split.
      * unfold isHelper in *. simpl in Hh.
        destruct (decide (id m = p)) as [<-|Hne]; [by eauto|].
        by rewrite lookup_insert_ne in Hh.
      * destruct Hr as (s & Hin & Hid). exists s. split; [|done].
        simpl in Hin. rewrite Hs. by right.
  - destruct (removeStudent_store env m q) as (l & Hl & Heq).
    rewrite Heq in Hh, Hr. apply (Hq p). split; [exact Hh|].
    by eapply isRequester_sublist.
  - destruct (removeAllStudents_store env q) as (l & Hl & Heq).
    rewrite Heq in Hh, Hr. apply (Hq p). split; [exact Hh|].
    by eapply isRequester_sublist.
  - destruct (addToNotifGroup_store m q) as (g & Heq).
    rewrite Heq in Hh, Hr. by apply (Hq p).
  - destruct (removeFromNotifGroup_store m q) as (g & Heq).
    rewrite Heq in Hh, Hr. by apply (Hq p).
Qed.

(** C3. The tutor opens a fresh queue, student 1 enqueues, and student 1
    then opens the queue as a helper: [openQueue] looks only at the helper
    set, so the state reached holds student 1 both as a helper and as a
    requester, and the exclusion of the two roles is broken. *)
Theorem openQueue_admits_waiting_requester :
  let q := run [ (calm 1, OpenQueue tutor false);
                 (calm 2, Enqueue student1);
                 (calm 3, OpenQueue student1 false) ]
               (new officeHours None) in
  reachable q /\
  isHelper q (id student1) /\
  isRequester q (id student1) /\
  ~ rolesExclusive q.
Proof.
  intros q.
  assert (isHelper q (id student1)) as Hh.
  { subst q. unfold isHelper. vm_compute. eauto. }
  assert (isRequester q (id student1)) as Hr.
  { exists {| Helpee.waitStart := 2; Helpee.upNext := true;
              Helpee.member := student1 |}.
    split; [|reflexivity]. subst q. vm_compute. left. }
  split; [subst q; apply reachable_run; constructor|].
  split; [exact Hh|]. split; [exact Hr|].
  intros Hex. exact (Hex _ (conj Hh Hr)).
Qed.

(** ** One session, end to end

    The tutor opens the queue, two students join, the tutor takes the
    next student and then closes the queue. *)
Example office_hours_session :
  let q1 := store (openQueue (calm 1) tutor false (new officeHours None)) in
  let q2 := store (enqueue (calm 2) student1 q1) in
  let q3 := store (enqueue (calm 3) student2 q2) in
  let next := dequeueWithHelper (calm 4) tutor q3 in
  let stop := closeQueue (calm 5) tutor (store next) in
  map Helpee.member (students q3) = [student1; student2] /\
  settled next = Resolved {| Helpee.waitStart := 2; Helpee.upNext := true;
                             Helpee.member := student1 |} /\
  map Helpee.member (students (store next)) = [student2] /\
  settled stop = Resolved {| Helper.helpStart := 1; Helper.helpEnd := Some 5%Z;
                             Helper.helpedMembers := [student1];
                             Helper.member := tutor |} /\
  isOpen (store next) = true /\
  isOpen (store stop) = false.
Proof. vm_compute. repeat split; reflexivity. Qed.

End HelpQueueFacts.

(** * Properties of the central command dispatcher *)

Module DispatcherFacts.

Import Dispatcher.

Section WithServers.
Context {AttendingServerV2 : Type}.
Variable delivery : Delivery.
Implicit Types (this : CentralCommandDispatcher AttendingServerV2).

Lemma isServerInteraction_unknown this interaction sent :
  originKnown this interaction = false ->
  isServerInteraction this interaction sent =
    (Rejected (CommandParseError (unknownOriginMessage interaction)), sent).
Proof.
  unfold originKnown, isServerInteraction. intros Hu.
  destruct (guild interaction) as [g|]; simpl; [|reflexivity].
  destruct (bool_decide (guild_id g = "")); simpl in *; [reflexivity|].
  by rewrite Hu.
Qed.

Lemma isServerInteraction_known this interaction sent :
  originKnown this interaction = true ->
  exists serverId,
    isServerInteraction this interaction sent = (Resolved serverId, sent).
Proof.
  unfold originKnown, isServerInteraction. intros Hk.
  destruct (guild interaction) as [g|]; simpl; [|discriminate].
  apply andb_true_iff in Hk as [Hne Hin].
  apply negb_true_iff in Hne. rewrite Hne, Hin. simpl. eauto.
Qed.

(** C1. For a request whose origin does not resolve to a known server,
    [process] rejects at its first line with the [CommandParseError] of
    [isServerInteraction]: the rejection reaches the caller, and nothing
    has been sent, so the requester gets no reply at all. *)
Theorem process_unknown_origin_escapes_unreplied this interaction sent :
  originKnown this interaction = false ->
  process delivery this interaction sent =
    (Rejected (CommandParseError (unknownOriginMessage interaction)), sent) /\
  replies (store (process delivery this interaction sent)) = replies sent.
Proof.
  intros Hu.
  assert (process delivery this interaction sent =
            (Rejected (CommandParseError (unknownOriginMessage interaction)), sent))
    as Hp.
  { unfold process, bind at 1.
    by rewrite (isServerInteraction_unknown this interaction sent Hu). }
  split; [exact Hp|]. by rewrite Hp.
Qed.

End WithServers.

Lemma process_unknown_origin_escapes_unreplied_witness :
  originKnown lonelyDispatcher strayEnqueue = false /\
  is_resolved (settled (process reliable lonelyDispatcher strayEnqueue [])) = false /\
  replies (store (process reliable lonelyDispatcher strayEnqueue [])) = [].
Proof.
  split; [reflexivity|].
  destruct (process_unknown_origin_escapes_unreplied reliable
              lonelyDispatcher strayEnqueue [] eq_refl) as [Hp Hr].
  split; [by rewrite Hp | exact Hr].
Defined.

End DispatcherFacts.

(** * Properties of the handler-map composition *)

Module HandlerMapsFacts.

Import HandlerMaps.

Section Combine.
Context {H : Type}.
Implicit Types (table first prev curr : gmap string H) (key : string).

Lemma lookup_assign prev curr key :
  assign prev curr !! key =
    match curr !! key with Some h => Some h | None => prev !! key end.
Proof.
  unfold assign. rewrite lookup_union.
  destruct (curr !! key), (prev !! key); reflexivity.
Qed.

Lemma lookup_foldl_assign (rest : list (gmap string H)) first key :
  foldl assign first rest !! key =
    foldl (fun found table => match table !! key with
                              | Some h => Some h
                              | None => found
                              end) (first !! key) rest.
Proof.
  revert first. induction rest as [|t rest IH]; intros first; simpl; [done|].
  by rewrite IH, lookup_assign.
Qed.

Lemma lookup_reduceAssign first (rest : list (gmap string H)) key :
  reduceAssign first rest !! key = lastContributed key (first :: rest).
Proof.
  unfold reduceAssign, lastContributed. rewrite lookup_foldl_assign. simpl.
  by destruct (first !! key).
Qed.

Lemma lookup_merged (baseT first : gmap string H) rest key :
  spread2 baseT (reduceAssign first rest) !! key =
    match lastContributed key (first :: rest) with
    | Some h => Some h
    | None => baseT !! key
    end.
Proof.
  unfold spread2. rewrite lookup_union, lookup_reduceAssign.
  destruct (lastContributed key (first :: rest)), (baseT !! key); reflexivity.
Qed.

(** C2, as the code has it. With at least one extension, the entry of a
    composed table under a key is the one contributed by the last
    extension that has the key, and the built-in entry only when no
    extension has it: an extension entry replaces the built-in entry of
    the same key, and the composition reports nothing. *)
Theorem combine_last_extension_wins
    (base : BaseMaps H) (ext0 : InteractionExtension H)
    (exts : list (InteractionExtension H)) (slot : Slot) (key : string) :
  completeTable slot (combineMethodMaps base (ext0 :: exts)) !! key =
    match lastContributed key (map (extensionTable slot) (ext0 :: exts)) with
    | Some h => Some h
    | None => baseTable slot base !! key
    end.
Proof.
  destruct slot; simpl; rewrite lookup_merged; reflexivity.
Qed.

(** C9. With no extension attached the composition is the four built-in
    tables themselves, skip sets included; in particular each of the ten
    name-to-handler tables is the built-in one. *)
Theorem combine_no_extension_is_base (base : BaseMaps H) :
  combineMethodMaps base [] =
    (baseYabobCommandMap base, baseYabobButtonMethodMap base,
     baseYabobSelectMenuMap base, baseYabobModalMap base) /\
  (forall slot, completeTable slot (combineMethodMaps base []) = baseTable slot base).
Proof.
  split.
  - reflexivity.
  - intros slot. by destruct slot.
Qed.

End Combine.

(** C2, as stated, fails: the built-in "enqueue" entry is replaced by the
    extension's, the composition returns all the same, and its result is
    the one obtained from built-in tables without any "enqueue" entry, so
    nothing in it tells that a collision took place. *)
Lemma combine_shadows_base_entry :
  baseTable Commands builtIn !! "enqueue" = Some "built-in enqueue" /\
  extensionTable Commands shadowing !! "enqueue" = Some "extension enqueue" /\
  completeTable Commands (combineMethodMaps builtIn [shadowing]) !! "enqueue"
    = Some "extension enqueue" /\
  ~ baseEntryKept builtIn [shadowing] Commands "enqueue" /\
  combineMethodMaps builtIn [shadowing] = combineMethodMaps (commandsOnly ∅) [shadowing].
Proof.
  assert (completeTable Commands (combineMethodMaps builtIn [shadowing]) !! "enqueue"
          = Some "extension enqueue") as Hc by (vm_compute; reflexivity).
  split; [vm_compute; reflexivity|].
  split; [vm_compute; reflexivity|].
  split; [exact Hc|].
  split.
  - intros Hkept. specialize (Hkept "built-in enqueue").
    rewrite Hc in Hkept. discriminate Hkept. vm_compute; reflexivity.
  - vm_compute. reflexivity.
Qed.

End HandlerMapsFacts.

(** * Properties of the interaction processors *)

Module ProcessorsFacts.

Import HandlerMaps Processors.

Section WithTables.
Variable safeDecompressComponentId :
  string -> option (ComponentType * string * string).
Variable allServers : gmap string AttendingServer.
Variable serverNotFound : Error.
Variable notAHandler : string -> Error.
Variable base : BaseMaps Handler.
Variable interactionExtensions : list (InteractionExtension Handler).

Abbreviation processComponent :=
  (processComponent safeDecompressComponentId allServers serverNotFound
     notAHandler base interactionExtensions).
Abbreviation componentHandler := (componentHandler base interactionExtensions).
Abbreviation progressed := (progressed base interactionExtensions).
Abbreviation invoke := (invoke notAHandler).

Lemma invoke_rejected handle interaction server err s1 s2 :
  isRepliable interaction = true ->
  handle interaction s1 = (Rejected err, s2) ->
  invoke (Own handle) interaction server s1 =
    (Resolved tt, errorReplied err server s2).
Proof.
  intros Hrep Hrej. unfold Processors.invoke, catch. rewrite Hrej.
  unfold replyWithError. rewrite Hrep. simpl.
  unfold bind, emit, modify, get, editReply, reply, emit, modify, errorReplied.
  simpl. destruct (replied s2); simpl; by rewrite <- app_assoc.
Qed.

Lemma readProperty_own {A} (table : gmap string A) (name : string) (a : A) :
  readProperty table name = Own a <-> table !! name = Some a.
Proof.
  unfold readProperty. destruct (table !! name) as [a'|].
  - split; congruence.
  - destruct (bool_decide (name ∈ objectPrototypeMembers)); split; discriminate.
Qed.

Lemma readProperty_missing {A} (table : gmap string A) (name : string) :
  table !! name = None ->
  readProperty table name =
    if bool_decide (name ∈ objectPrototypeMembers) then Inherited name
    else Undefined.
Proof. unfold readProperty. by intros ->. Qed.

Lemma session_eta (s : Session) :
  {| replied := replied s; sent := sent s |} = s.
Proof. by destruct s. Qed.

(** Once the id is parsed and the server found, a processor is its
    prelude followed by the invocation of the handler it looked up. *)
Lemma processComponent_parsed c interaction s type componentName serverId server :
  isComponent c interaction = true ->
  safeDecompressComponentId (customId interaction)
    = Some (type, componentName, serverId) ->
  allServers !! default serverId (guildId interaction) = Some server ->
  processComponent c interaction s =
    invoke (componentHandler c type componentName interaction) interaction server
           (progressed c type componentName server interaction s).
Proof.
  intros Hkind Hparse Hserver.
  destruct c; simpl in Hkind; simpl;
    unfold processButton, processSelectMenu, processModalSubmit;
    rewrite Hkind, Hparse; simpl;
    unfold AttendingServer_get; rewrite Hserver;
    unfold Processors.componentHandler, Processors.progressed,
      Processors.beforeHandler, sendLogMessage, bind, emit, reply, modify,
      resolve; simpl.
  - destruct (bool_decide (componentName ∈ _)); simpl;
      destruct (inCachedGuild interaction), type; simpl;
      rewrite ?orb_false_r, ?orb_true_r, <- ?app_assoc; reflexivity.
  - destruct (bool_decide (componentName ∈ _)); simpl;
      destruct (inCachedGuild interaction), type; simpl;
      rewrite ?orb_false_r, ?orb_true_r, <- ?app_assoc; reflexivity.
  - destruct (inCachedGuild interaction), type; simpl;
      rewrite ?orb_false_r, ?orb_true_r, <- ?app_assoc; reflexivity.
Qed.


End WithTables.



End ProcessorsFacts.

(** * Further properties of the help queue *)

Module HelpQueueMore.

Import HelpQueue HelpQueueCalls HelpQueueFacts.

Ltac run_method :=
  unfold bind, get, modify, resolve, reject, awaitFanOut, triggerRender,
    store, settled; simpl.

Lemma set_students_id q : set_students (students q) q = q.
Proof. by destruct q. Qed.

Lemma perform_store env c q : store (perform env c q) = after env c q.
Proof.
  destruct c; simpl; try reflexivity.
  - unfold forget. by destruct (closeQueue env helperMember q) as [[] ?].
  - unfold forget. by destruct (dequeueWithHelper env helperMember q) as [[] ?].
Qed.

(** ** Guards come before any mutation *)

(** X1. Whatever public method is called, a call that rejects with a
    [QueueError] has left the queue exactly as it was: every guard is
    checked before the first write.  (A rejection that comes after a write
    is always a collaborator's.) *)
Theorem queue_error_means_untouched
    (env : Env) (c : Call) (q : HelpQueueV2) (message queueName : string) :
  settled (perform env c q) = Rejected (QueueError message queueName) ->
  store (perform env c q) = q /\ queueName = name q.
Proof.
  destruct c as [m notify|m|m|m|m| |m|m]; simpl.
  - unfold openQueue. rewrite run_get_if.
    destruct (has (helpers q) (id m)).
    + intros Hr. simpl in Hr. inversion Hr. done.
    + run_method. destruct (renderResolves env); simpl; discriminate.
  - unfold closeQueue. rewrite run_get_if.
    destruct (isOpen q); simpl.
    + destruct (helpers q !! id m).
      * run_method. destruct (fanOutResolves env), (renderResolves env);
          simpl; discriminate.
      * intros Hr. inversion Hr. done.
    + intros Hr. inversion Hr. done.
  - unfold enqueue. rewrite run_get_if.
    destruct (isOpen q); simpl.
    + destruct (bool_decide _).
      * intros Hr. inversion Hr. done.
      * destruct (has (helpers q) (id m)).
        -- intros Hr. inversion Hr. done.
        -- run_method. destruct (fanOutResolves env), (renderResolves env);
             simpl; discriminate.
    + intros Hr. inversion Hr. done.
  - unfold dequeueWithHelper. rewrite run_get_if.
    destruct (isOpen q); simpl.
    + destruct (students q) as [|firstStudent rest].
      * intros Hr. inversion Hr. done.
      * destruct (helpers q !! id m).
        -- run_method. destruct (fanOutResolves env), (renderResolves env);
             simpl; discriminate.
        -- intros Hr. inversion Hr. done.
    + intros Hr. inversion Hr. done.
  - unfold removeStudent. rewrite run_get_if.
    destruct (findIndex _ (students q)).
    + run_method. destruct (fanOutResolves env), (renderResolves env);
        simpl; discriminate.
    + intros Hr. inversion Hr. done.
  - unfold removeAllStudents. run_method.
    destruct (fanOutResolves env); simpl; [|discriminate].
    destruct (renderResolves env); simpl; discriminate.
  - unfold addToNotifGroup. rewrite run_get_if.
    destruct (has (notifGroup q) (id m)).
    + intros Hr. inversion Hr. done.
    + discriminate.
  - unfold removeFromNotifGroup. rewrite run_get_if.
    destruct (has (notifGroup q) (id m)); simpl.
    + discriminate.
    + intros Hr. inversion Hr. done.
Qed.

Lemma queue_error_means_untouched_witness :
  let q := after (calm 1) (OpenQueue tutor false) (new officeHours None) in
  store (perform (calm 2) (Enqueue tutor) q) = q.
Proof.
  intros q.
  exact (proj1 (queue_error_means_untouched (calm 2) (Enqueue tutor) q
                  "You can't enqueue yourself while helping." "Office Hours"
                  eq_refl)).
Defined.

(** ** Opening and closing *)

(** X2. Once a member has tried to open the queue, whether that attempt
    went through or not, a further [openQueue] by the same member rejects
    with "Queue is already open" and changes nothing: a member never holds
    two helper records. *)
Theorem openQueue_again_rejects
    (env env' : Env) (helperMember : GuildMember) (notify notify' : bool)
    (q : HelpQueueV2) :
  let q1 := store (openQueue env helperMember notify q) in
  isHelper q1 (id helperMember) /\
  openQueue env' helperMember notify' q1 =
    (Rejected (QueueError "Queue is already open" (name q)), q1).
Proof.
  intros q1.
  assert (helpers q1 !! id helperMember <> None /\ name q1 = name q) as [Hin Hname].
  { subst q1. rewrite openQueue_store.
    destruct (has (helpers q) (id helperMember)) eqn:Hh.
    - apply has_true in Hh as [x Hx]. split; [congruence|done].
    - simpl. by rewrite lookup_insert_eq. }
  split.
  - unfold isHelper. by destruct (helpers q1 !! id helperMember); eauto.
  - unfold openQueue. rewrite run_get_if.
    assert (has (helpers q1) (id helperMember) = true) as ->.
    { apply has_true. by destruct (helpers q1 !! id helperMember); eauto. }
    by rewrite Hname.
Qed.

Lemma openQueue_opens env m notify q :
  ~ isHelper q (id m) ->
  store (openQueue env m notify q) =
    set_helpers
      (<[id m := {| Helper.helpStart := now env; Helper.helpEnd := None;
                    Helper.helpedMembers := []; Helper.member := m |}]> (helpers q))
      (set_isOpen true q).
Proof.
  intros Hno. rewrite openQueue_store.
  assert (has (helpers q) (id m) = false) as ->; [|done].
  apply has_false. destruct (helpers q !! id m) eqn:E; [|done].
  exfalso. apply Hno. unfold isHelper. rewrite E. eauto.
Qed.

Lemma closeQueue_closes env m q helper :
  isOpen q = true ->
  helpers q !! id m = Some helper ->
  store (closeQueue env m q) =
    set_isOpen (bool_decide (0 < size (delete (id m) (helpers q))))
      (set_helpers (delete (id m) (helpers q)) q) /\
  (collaboratorsResolve env ->
   settled (closeQueue env m q) = Resolved (closed helper env)).
Proof.
  intros Ho Hh. split.
  - rewrite closeQueue_store, Ho, Hh. reflexivity.
  - intros [Hf Hr]. unfold closeQueue. rewrite run_get_if, Ho, Hh. simpl.
    run_method. by rewrite Hf, Hr.
Qed.

(** X3. On a queue whose [isOpen] agrees with its helper set, opening with
    a member who is not a helper and then closing with that member gives
    back the queue as it was, and the closing call resolves (when its
    collaborators do) with that member's record: started at the opening
    time, ended at the closing time, nobody helped. *)
Theorem open_then_close_restores
    (env1 env2 : Env) (helperMember : GuildMember) (notify : bool)
    (q : HelpQueueV2) :
  openIffHelpers q ->
  ~ isHelper q (id helperMember) ->
  let q1 := store (openQueue env1 helperMember notify q) in
  store (closeQueue env2 helperMember q1) = q /\
  (collaboratorsResolve env2 ->
   settled (closeQueue env2 helperMember q1) =
     Resolved {| Helper.helpStart := now env1; Helper.helpEnd := Some (now env2);
                 Helper.helpedMembers := []; Helper.member := helperMember |}).
Proof.
  intros Hinv Hno q1. subst q1. rewrite (openQueue_opens _ _ _ _ Hno).
  assert (helpers q !! id helperMember = None) as Hnone.
  { destruct (helpers q !! id helperMember) eqn:E; [|done].
    exfalso. apply Hno. unfold isHelper. rewrite E. eauto. }
  match goal with |- context [closeQueue env2 helperMember ?q1] =>
    destruct (closeQueue_closes env2 helperMember q1
                {| Helper.helpStart := now env1; Helper.helpEnd := None;
                   Helper.helpedMembers := []; Helper.member := helperMember |}
                eq_refl (lookup_insert_eq _ _ _)) as [Hstore Hres]
  end.
  split; [|exact Hres].
  rewrite Hstore. simpl. rewrite delete_insert_id by done.
  unfold openIffHelpers in Hinv. rewrite <- Hinv. by destruct q.
Qed.

Lemma open_then_close_restores_witness :
  let q := new officeHours None in
  store (closeQueue (calm 9) tutor (store (openQueue (calm 1) tutor true q))) = q.
Proof.
  intros q. refine (proj1 (open_then_close_restores (calm 1) (calm 9) tutor true q _ _)).
  - reflexivity.
  - unfold isHelper. simpl. rewrite lookup_empty. by intros [x Hx].
Defined.

(** ** First in, first out *)

Lemma enqueue_accepts env m q :
  isOpen q = true ->
  ~ isRequester q (id m) ->
  ~ isHelper q (id m) ->
  store (enqueue env m q) = set_students (students q ++ [newHelpee env q m]) q.
Proof.
  intros Ho Hq Hh. unfold enqueue. rewrite run_get_if, Ho. simpl.
  rewrite bool_decide_eq_false_2.
  2:{ intros Hne. apply Hne. by apply find_id_None. }
  assert (has (helpers q) (id m) = false) as ->.
  { apply has_false. destruct (helpers q !! id m) eqn:E; [|done].
    exfalso. apply Hh. unfold isHelper. rewrite E. eauto. }
  run_method. by destruct (fanOutResolves env), (renderResolves env).
Qed.

Lemma isRequester_lineIds q principal :
  isRequester q principal <-> principal ∈ lineIds q.
Proof.
  unfold isRequester, lineIds. rewrite list_elem_of_fmap. split.
  - intros (s & Hs & Hid). exists s. by split.
  - intros (s & Hid & Hs). exists s. by split.
Qed.

(** X4. On an open queue, members who are pairwise distinct, not helpers
    and not yet waiting, each calling [enqueue] once, end up at the tail of
    the line in the order of their calls; helpers and [isOpen] stay as they
    are, whatever the collaborators do. *)
Theorem enqueues_line_up_in_call_order
    (arrivals : list (Env * GuildMember)) (q : HelpQueueV2) :
  isOpen q = true ->
  NoDup (map (fun a => id (snd a)) arrivals) ->
  (forall a, a ∈ arrivals ->
             ~ isRequester q (id (snd a)) /\ ~ isHelper q (id (snd a))) ->
  let q' := run (enqueueEach arrivals) q in
  map Helpee.member (students q') =
    map Helpee.member (students q) ++ map snd arrivals /\
  helpers q' = helpers q /\
  isOpen q' = true.
Proof.
  revert q. induction arrivals as [|[env m] arrivals IH]; intros q Ho Hnd Hnew; simpl.
  - by rewrite app_nil_r.
  - destruct (Hnew (env, m)) as [Hq Hh]; [left|]. simpl in Hq, Hh.
    rewrite (enqueue_accepts env m q Ho Hq Hh).
    apply NoDup_cons in Hnd as [Hm Hnd].
    specialize (IH (set_students (students q ++ [newHelpee env q m]) q) Ho Hnd).
    destruct IH as (Hline & Hhelpers & Hopen).
    { intros a Ha. destruct (Hnew a) as [Hqa Hha]; [by right|]. split; [|exact Hha].
      intros (s & Hs & Hid). simpl in Hs. apply elem_of_app in Hs as [Hs|Hs].
      - apply Hqa. by exists s.
      - apply list_elem_of_singleton in Hs. subst s. simpl in Hid.
        apply Hm. simpl. rewrite Hid. apply list_elem_of_fmap. by exists a. }
    split; [|done]. rewrite Hline. simpl.
    by rewrite map_app, <- app_assoc.
Qed.

Lemma enqueues_line_up_in_call_order_witness :
  let q := after (calm 1) (OpenQueue tutor false) (new officeHours None) in
  map Helpee.member
      (students (run (enqueueEach [(calm 2, student1); (calm 3, student2)]) q))
  = [student1; student2].
Proof.
  intros q.
  refine (proj1 (enqueues_line_up_in_call_order
                   [(calm 2, student1); (calm 3, student2)] q eq_refl _ _)).
  - simpl. apply NoDup_cons. split.
    + intros Hin. apply list_elem_of_singleton in Hin. discriminate Hin.
    + apply NoDup_singleton.
  - intros a Ha. split.
    + intros (s & Hs & _). vm_compute in Hs. by apply elem_of_nil in Hs.
    + apply elem_of_cons in Ha as [->|Ha];
        [|apply list_elem_of_singleton in Ha; subst a];
        unfold isHelper; vm_compute; intros [x Hx]; discriminate Hx.
Defined.

Lemma dequeue_accepts env m q firstStudent rest helper :
  isOpen q = true ->
  students q = firstStudent :: rest ->
  helpers q !! id m = Some helper ->
  store (dequeueWithHelper env m q) =
    set_helpers (<[id m := served helper firstStudent]> (helpers q))
      (set_students rest q).
Proof.
  intros Ho Hs Hh. unfold dequeueWithHelper. rewrite run_get_if, Ho, Hs, Hh. simpl.
  run_method. by destruct (fanOutResolves env), (renderResolves env).
Qed.

Lemma servedAll_nil helper : servedAll helper [] = helper.
Proof. unfold servedAll. simpl. rewrite app_nil_r. by destruct helper. Qed.

Lemma servedAll_cons helper firstStudent l :
  servedAll (served helper firstStudent) l = servedAll helper (firstStudent :: l).
Proof. unfold servedAll, served. simpl. by rewrite <- app_assoc. Qed.

Lemma dequeueTimes_run
    (env : Env) (helperMember : GuildMember) (k : nat)
    (q : HelpQueueV2) (helper : Helper.t) :
  isOpen q = true ->
  helpers q !! id helperMember = Some helper ->
  k <= List.length (students q) ->
  let q' := run (dequeueTimes env helperMember k) q in
  students q' = drop k (students q) /\
  helpers q' =
    <[id helperMember := servedAll helper (take k (students q))]> (helpers q) /\
  isOpen q' = true /\
  notifGroup q' = notifGroup q.
Proof.
  revert q helper. induction k as [|k IH]; intros q helper Ho Hh Hk; simpl.
  - rewrite servedAll_nil, insert_id by done. done.
  - destruct (students q) as [|firstStudent rest] eqn:Hs; [simpl in Hk; lia|].
    rewrite (dequeue_accepts env helperMember q firstStudent rest helper Ho Hs Hh).
    simpl in Hk.
    destruct (IH (set_helpers (<[id helperMember := served helper firstStudent]> (helpers q))
                    (set_students rest q))
                 (served helper firstStudent) Ho (lookup_insert_eq _ _ _)
                 ltac:(simpl; lia))
      as (Hline & Hhelpers & Hopen & Hnotif).
    unfold dequeueTimes in *. rewrite Hline, Hhelpers, Hopen, Hnotif. simpl.
    by rewrite insert_insert_eq, servedAll_cons.
Qed.

(** X5. On an open queue a helper who calls [dequeueWithHelper] [k] times,
    [k] at most the length of the line, takes exactly the first [k]
    requesters: the line is what came after them, and the helper's
    [helpedMembers] has grown by their members in line order. *)
Theorem dequeues_take_the_front_in_order
    (env : Env) (helperMember : GuildMember) (k : nat)
    (q : HelpQueueV2) (helper : Helper.t) :
  isOpen q = true ->
  helpers q !! id helperMember = Some helper ->
  k <= List.length (students q) ->
  let q' := run (dequeueTimes env helperMember k) q in
  students q' = drop k (students q) /\
  helpers q' =
    <[id helperMember := servedAll helper (take k (students q))]> (helpers q) /\
  isOpen q' = true /\
  notifGroup q' = notifGroup q.
Proof. apply dequeueTimes_run. Qed.

Lemma dequeues_take_the_front_in_order_witness :
  let waiting (m : GuildMember) (t : Z) (next : bool) :=
    {| Helpee.waitStart := t; Helpee.upNext := next; Helpee.member := m |} in
  let helper := {| Helper.helpStart := 1; Helper.helpEnd := None;
                   Helper.helpedMembers := []; Helper.member := tutor |} in
  let q := {| helpers := {[ "1001" := helper ]};
              students := [waiting student1 2%Z true; waiting student2 3%Z false];
              notifGroup := ∅; isOpen := true; queueChannel := officeHours |} in
  students (run (dequeueTimes (calm 4) tutor 1) q) = [waiting student2 3%Z false].
Proof.
  intros waiting helper q.
  exact (proj1 (dequeues_take_the_front_in_order (calm 4) tutor 1 q helper
                  eq_refl (lookup_singleton_eq _ _) ltac:(simpl; lia))).
Defined.

(** X6. A whole shift: a member who is not a helper opens the queue,
    dequeues [k] times, [k] at most the length of the line, and closes.
    The record the closing call resolves with carries the opening and
    closing times and, in line order, the members of the first [k]
    requesters; the line left behind is what came after them. *)
Theorem shift_record_lists_the_served
    (env1 env2 env3 : Env) (helperMember : GuildMember) (notify : bool)
    (k : nat) (q : HelpQueueV2) :
  ~ isHelper q (id helperMember) ->
  k <= List.length (students q) ->
  collaboratorsResolve env3 ->
  let q1 := store (openQueue env1 helperMember notify q) in
  let q2 := run (dequeueTimes env2 helperMember k) q1 in
  settled (closeQueue env3 helperMember q2) =
    Resolved {| Helper.helpStart := now env1; Helper.helpEnd := Some (now env3);
                Helper.helpedMembers := map Helpee.member (take k (students q));
                Helper.member := helperMember |} /\
  students (store (closeQueue env3 helperMember q2)) = drop k (students q).
Proof.
  intros Hno Hk Hcalm q1 q2. subst q2 q1.
  rewrite (openQueue_opens _ _ _ _ Hno).
  match goal with |- context [run _ ?q1] =>
    destruct (dequeueTimes_run env2 helperMember k q1
                {| Helper.helpStart := now env1; Helper.helpEnd := None;
                   Helper.helpedMembers := []; Helper.member := helperMember |}
                eq_refl (lookup_insert_eq _ _ _) Hk)
      as (Hline & Hhelpers & Hopen & _);
    set (q2 := run (dequeueTimes env2 helperMember k) q1) in *
  end.
  simpl in Hline, Hhelpers.
  assert (helpers q2 !! id helperMember =
            Some (servedAll {| Helper.helpStart := now env1; Helper.helpEnd := None;
                               Helper.helpedMembers := [];
                               Helper.member := helperMember |}
                            (take k (students q)))) as Hh.
  { rewrite Hhelpers. apply lookup_insert_eq. }
  destruct (closeQueue_closes env3 helperMember q2 _ Hopen Hh) as [Hstore Hres].
  split.
  - rewrite (Hres Hcalm). reflexivity.
  - rewrite Hstore. simpl. exact Hline.
Qed.

Lemma shift_record_lists_the_served_witness :
  let waiting (m : GuildMember) (t : Z) (next : bool) :=
    {| Helpee.waitStart := t; Helpee.upNext := next; Helpee.member := m |} in
  let q := {| helpers := ∅;
              students := [waiting student1 2%Z true; waiting student2 3%Z false];
              notifGroup := ∅; isOpen := false; queueChannel := officeHours |} in
  let q2 := run (dequeueTimes (calm 5) tutor 2)
                (store (openQueue (calm 4) tutor false q)) in
  settled (closeQueue (calm 6) tutor q2) =
    Resolved {| Helper.helpStart := 4; Helper.helpEnd := Some 6%Z;
                Helper.helpedMembers := [student1; student2];
                Helper.member := tutor |}.
Proof.
  intros waiting q q2.
  refine (proj1 (shift_record_lists_the_served (calm 4) (calm 5) (calm 6) tutor false
                   2 q _ ltac:(simpl; lia) (conj eq_refl eq_refl))).
  unfold isHelper. simpl. rewrite lookup_empty. by intros [x Hx].
Defined.

(** ** Nobody waits twice *)

Lemma sublist_map {A B} (f : A -> B) (l k : list A) :
  sublist l k -> sublist (map f l) (map f k).
Proof. induction 1; simpl; by constructor. Qed.

Lemma enqueue_store_fresh env m q :
  store (enqueue env m q) = q \/
  (~ isRequester q (id m) /\
   store (enqueue env m q) = set_students (students q ++ [newHelpee env q m]) q).
Proof.
  unfold enqueue. rewrite run_get_if.
  destruct (isOpen q); simpl; [|by left].
  destruct (bool_decide_reflect
              (List.find (fun s => bool_decide (id (Helpee.member s) = id m))
                 (students q) <> None)) as [Hf|Hf]; [by left|].
  destruct (has (helpers q) (id m)); [by left|].
  right. split.
  - apply find_id_None. destruct (List.find _ (students q)); [|done].
    exfalso. by apply Hf.
  - run_method. by destruct (fanOutResolves env), (renderResolves env).
Qed.

Lemma lineDistinct_after env c q : lineDistinct q -> lineDistinct (after env c q).
Proof.
  unfold lineDistinct. intros Hq. destruct c as [m notify|m|m|m|m| |m|m]; simpl.
  - rewrite openQueue_store. by destruct (has (helpers q) (id m)).
  - rewrite closeQueue_store. destruct (isOpen q); simpl; [|done].
    by destruct (helpers q !! id m).
  - destruct (enqueue_store_fresh env m q) as [->|[Hno ->]]; [done|].
    unfold lineIds. simpl. rewrite map_app. apply NoDup_app.
    split; [exact Hq|]. split; [|apply NoDup_singleton].
    intros x Hx Hin. apply list_elem_of_singleton in Hin. simpl in Hin. subst x.
    apply Hno. by apply isRequester_lineIds.
  - destruct (dequeueWithHelper_store env m q)
      as [->|(firstStudent & rest & helper & Hs & _ & ->)]; [done|].
    unfold lineIds in *. simpl. rewrite Hs in Hq. simpl in Hq.
    by apply NoDup_cons in Hq as [_ Hq].
  - destruct (removeStudent_store env m q) as (l & Hl & ->).
    unfold lineIds. simpl. eapply sublist_NoDup; [exact Hq|].
    by apply sublist_map.
  - destruct (removeAllStudents_store env q) as (l & Hl & ->).
    unfold lineIds. simpl. eapply sublist_NoDup; [exact Hq|].
    by apply sublist_map.
  - by destruct (addToNotifGroup_store m q) as (g & ->).
  - by destruct (removeFromNotifGroup_store m q) as (g & ->).
Qed.

(** X7. A line without a repeated member stays so under any sequence of
    calls, in any environments; in particular the line of a queue created
    without backup never holds a member twice. *)
Theorem line_never_gains_a_duplicate
    (calls : list (Env * Call)) (q : HelpQueueV2) :
  lineDistinct q -> lineDistinct (run calls q).
Proof.
  revert q. induction calls as [|[env c] calls IH]; intros q Hq; simpl; [done|].
  apply IH. by apply lineDistinct_after.
Qed.

Lemma line_never_gains_a_duplicate_witness :
  lineDistinct
    (run [ (calm 1, OpenQueue tutor false); (calm 2, Enqueue student1);
           (calm 3, Enqueue student1); (calm 4, Enqueue student2) ]
         (new officeHours None)).
Proof.
  apply line_never_gains_a_duplicate. unfold lineDistinct. simpl. apply NoDup_nil_2.
Defined.

(** ** Clearing the line *)

(** X8. [removeAllStudents] empties the line only once the remove-all
    hooks have resolved: then the line is empty (also when it already was),
    helpers, notification group and [isOpen] are untouched, and the call
    resolves iff the render does.  When the hooks reject, the call rejects
    and the line is left as it was. *)
Theorem removeAllStudents_clears_after_hooks (env : Env) (q : HelpQueueV2) :
  (fanOutResolves env = true ->
     store (removeAllStudents env q) = set_students [] q /\
     (renderResolves env = true ->
        settled (removeAllStudents env q) = Resolved tt)) /\
  (fanOutResolves env = false ->
     removeAllStudents env q = (Rejected (CollaboratorFailure Hooks), q)).
Proof.
  unfold removeAllStudents. run_method. split.
  - intros ->. simpl. destruct (renderResolves env); simpl; split; done.
  - intros ->. reflexivity.
Qed.

(** ** The notification group *)

(** X9. Joining the notification group and leaving it again gives back the
    queue as it was, for a member who was not in the group; a second join
    in between rejects with "You are already in the notification squad."
    and changes nothing.  Neither call needs the queue to be open. *)
Theorem notif_join_then_leave_restores
    (targetStudent : GuildMember) (q : HelpQueueV2) :
  has (notifGroup q) (id targetStudent) = false ->
  let q1 := store (addToNotifGroup targetStudent q) in
  settled (addToNotifGroup targetStudent q) = Resolved tt /\
  notifGroup q1 !! id targetStudent = Some targetStudent /\
  addToNotifGroup targetStudent q1 =
    (Rejected (QueueError "You are already in the notification squad." (name q)), q1) /\
  removeFromNotifGroup targetStudent q1 = (Resolved tt, q).
Proof.
  intros Hno q1.
  assert (addToNotifGroup targetStudent q =
            (Resolved tt,
             set_notifGroup (<[id targetStudent := targetStudent]> (notifGroup q)) q))
    as Hjoin.
  { unfold addToNotifGroup. by rewrite run_get_if, Hno. }
  subst q1. rewrite Hjoin. unfold settled, store. simpl.
  split; [done|]. split; [by rewrite lookup_insert_eq|].
  split.
  - unfold addToNotifGroup. rewrite run_get_if. unfold has. simpl.
    by rewrite lookup_insert_eq.
  - unfold removeFromNotifGroup. rewrite run_get_if. unfold has. simpl.
    rewrite lookup_insert_eq. simpl. unfold modify. simpl.
    rewrite delete_insert_id by by apply has_false.
    by destruct q.
Qed.

Lemma notif_join_then_leave_restores_witness :
  let q := new officeHours None in
  removeFromNotifGroup student1 (store (addToNotifGroup student1 q)) = (Resolved tt, q).
Proof.
  intros q.
  exact (proj2 (proj2 (proj2 (notif_join_then_leave_restores student1 q eq_refl)))).
Defined.

(** X10. Leaving the notification group without being in it rejects with
    "You are not in the notification squad."; and neither joining nor
    leaving ever touches helpers, line or [isOpen], or the subscription of
    any other member. *)
Theorem notif_calls_touch_only_the_group
    (targetStudent : GuildMember) (q : HelpQueueV2) :
  (has (notifGroup q) (id targetStudent) = false ->
     removeFromNotifGroup targetStudent q =
       (Rejected (QueueError "You are not in the notification squad." (name q)), q)) /\
  (forall call,
      call = AddToNotifGroup targetStudent \/
      call = RemoveFromNotifGroup targetStudent ->
      forall env,
        helpers (after env call q) = helpers q /\
        students (after env call q) = students q /\
        isOpen (after env call q) = isOpen q /\
        forall other, other <> id targetStudent ->
                      notifGroup (after env call q) !! other = notifGroup q !! other).
Proof.
  split.
  - intros Hno. unfold removeFromNotifGroup. by rewrite run_get_if, Hno.
  - intros call [->| ->] env; simpl.
    + unfold addToNotifGroup. rewrite run_get_if.
      destruct (has (notifGroup q) (id targetStudent)); simpl; [done|].
      repeat split. intros other Hne. by rewrite lookup_insert_ne.
    + unfold removeFromNotifGroup. rewrite run_get_if.
      destruct (has (notifGroup q) (id targetStudent)); simpl; [|done].
      repeat split. intros other Hne. by rewrite lookup_delete_ne.
Qed.

End HelpQueueMore.

(** * Further properties of the central command dispatcher *)

Module DispatcherMore.

Import Dispatcher DispatcherMethods.

Lemma lookup_keyed_map {V} (f : string -> V) (keys : list string) (key : string) :
  (list_to_map (map (fun key => (key, f key)) keys) : gmap string V) !! key =
    if bool_decide (key ∈ keys) then Some (f key) else None.
Proof.
  induction keys as [|k keys IH]; simpl.
  - by rewrite lookup_empty.
  - rewrite lookup_insert. destruct (decide (k = key)) as [->|Hne].
    + rewrite bool_decide_eq_true_2; [done|left].
    + rewrite IH. destruct (bool_decide_reflect (key ∈ keys)) as [Hin|Hin].
      * rewrite bool_decide_eq_true_2; [done|by right].
      * rewrite bool_decide_eq_false_2; [done|].
        intros Hc. apply elem_of_cons in Hc as [->|Hc]; done.
Qed.

Section WithServers.
Context {AttendingServerV2 : Type}.
Variable delivery : Delivery.
Implicit Types (this : CentralCommandDispatcher AttendingServerV2).

Lemma commandMethodMap_lookup this key :
  commandMethodMap this !! key =
    if bool_decide (key ∈ commandNames) then Some (methods this key) else None.
Proof. unfold commandMethodMap. apply lookup_keyed_map. Qed.

Lemma origin_resolves this interaction g sent :
  guild interaction = Some g ->
  originKnown this interaction = true ->
  isServerInteraction this interaction sent = (Resolved (guild_id g), sent) /\
  has (serverMap this) (guild_id g) = true.
Proof.
  unfold originKnown, isServerInteraction. intros -> Hk. simpl.
  apply andb_true_iff in Hk as [Hne Hin]. apply negb_true_iff in Hne.
  by rewrite Hne, Hin.
Qed.

Lemma sendLogMessage_known this serverId e :
  has (serverMap this) serverId = true ->
  sendLogMessage delivery this serverId e = send delivery (SendLogMessage serverId e).
Proof.
  unfold sendLogMessage, has. by destruct (serverMap this !! serverId).
Qed.

Lemma send_delivered ev sent :
  delivery sent ev = None -> send delivery ev sent = (Resolved tt, sent ++ [ev]).
Proof. unfold send. by intros ->. Qed.

Lemma send_rejected ev sent err :
  delivery sent ev = Some err -> send delivery ev sent = (Rejected err, sent).
Proof. unfold send. by intros ->. Qed.

Lemma process_known this interaction g sent :
  guild interaction = Some g ->
  originKnown this interaction = true ->
  process delivery this interaction sent =
    (do! all2 (editReply delivery (SimpleEmbed "Processing command..." Neutral))
              (send delivery (SendLogMessage (guild_id g) (SlashCommandLogEmbed interaction)));
     afterAcknowledgement delivery this interaction (guild_id g)) sent.
Proof.
  intros Hg Hk. destruct (origin_resolves this interaction g sent Hg Hk) as [Ho Hin].
  unfold process, bind at 1. rewrite Ho.
  by rewrite (sendLogMessage_known _ _ _ Hin).
Qed.

Lemma process_acknowledges this interaction g sent :
  guild interaction = Some g ->
  originKnown this interaction = true ->
  delivers delivery sent (acknowledgement interaction (guild_id g)) ->
  process delivery this interaction sent =
    afterAcknowledgement delivery this interaction (guild_id g)
      (acknowledged interaction (guild_id g) sent).
Proof.
  intros Hg Hk (Hreply & Hlog & _).
  rewrite (process_known this interaction g sent Hg Hk).
  unfold bind at 1, all2, editReply at 1.
  rewrite (send_delivered _ _ Hreply), (send_delivered _ _ Hlog).
  unfold acknowledged. by rewrite <- app_assoc.
Qed.

Lemma delivers_app sent events events' :
  delivers delivery sent (events ++ events') <->
  delivers delivery sent events /\ delivers delivery (sent ++ events) events'.
Proof.
  revert sent. induction events as [|ev events IH]; intros sent; simpl.
  - rewrite app_nil_r. tauto.
  - rewrite IH, <- app_assoc. simpl. tauto.
Qed.

Lemma process_unknown_command this interaction g sent :
  guild interaction = Some g ->
  originKnown this interaction = true ->
  commandName interaction ∉ commandNames ->
  process delivery this interaction sent =
    (do! all2 (editReply delivery (SimpleEmbed "Processing command..." Neutral))
              (send delivery (SendLogMessage (guild_id g) (SlashCommandLogEmbed interaction)));
     editReply delivery
       (ErrorEmbed (CommandNotImplementedError "This command does not exist."))) sent.
Proof.
  intros Hg Hk Hno. rewrite (process_known this interaction g sent Hg Hk).
  unfold afterAcknowledgement.
  by rewrite commandMethodMap_lookup, bool_decide_eq_false_2 by done.
Qed.

(** X11. A request from a known server for a command name that is not one
    of the eighteen keys of [commandMethodMap].  When the transport
    delivers the placeholder and the error embed and the server's log sink
    accepts the log message, the request is acknowledged, answered with
    the "This command does not exist." error embed, and [process]
    resolves; no method runs and nothing else is sent.  When the log sink
    rejects the log message, the placeholder having been delivered,
    [process] rejects with the log sink's error and the error embed is
    never sent. *)
Theorem process_unknown_command_is_answered this interaction g sent :
  guild interaction = Some g ->
  originKnown this interaction = true ->
  commandName interaction ∉ commandNames ->
  let notFound :=
    EditReply (ErrorEmbed (CommandNotImplementedError "This command does not exist.")) in
  (delivers delivery sent (acknowledgement interaction (guild_id g) ++ [notFound]) ->
   process delivery this interaction sent =
     (Resolved tt, acknowledged interaction (guild_id g) sent ++ [notFound])) /\
  (forall err,
     delivery sent (EditReply (SimpleEmbed "Processing command..." Neutral)) = None ->
     delivery (sent ++ [EditReply (SimpleEmbed "Processing command..." Neutral)])
              (SendLogMessage (guild_id g) (SlashCommandLogEmbed interaction)) = Some err ->
     process delivery this interaction sent =
       (Rejected err, sent ++ [EditReply (SimpleEmbed "Processing command..." Neutral)])).
Proof.
  intros Hg Hk Hno notFound. subst notFound.
  rewrite (process_unknown_command this interaction g sent Hg Hk Hno). split.
  - intros (Hreply & Hlog & Hanswer & _).
    unfold bind, all2, editReply.
    rewrite (send_delivered _ _ Hreply), (send_delivered _ _ Hlog).
    rewrite (send_delivered _ _ Hanswer).
    unfold acknowledged. by rewrite <- !app_assoc.
  - intros err Hreply Hlog.
    unfold bind, all2, editReply.
    by rewrite (send_delivered _ _ Hreply), (send_rejected _ _ _ Hlog).
Qed.

Lemma process_concludes
    this interaction g sent outcome sent' :
  guild interaction = Some g ->
  originKnown this interaction = true ->
  commandName interaction ∈ commandNames ->
  delivers delivery sent (acknowledgement interaction (guild_id g)) ->
  methods this (commandName interaction) interaction
          (acknowledged interaction (guild_id g) sent ++ [ConsoleLog])
    = (outcome, sent') ->
  delivers delivery sent' (conclusion interaction (guild_id g) outcome) ->
  process delivery this interaction sent =
    (Resolved tt, sent' ++ conclusion interaction (guild_id g) outcome).
Proof.
  intros Hg Hk Hin Hack Hm Hend.
  rewrite (process_acknowledges this interaction g sent Hg Hk Hack).
  unfold afterAcknowledgement.
  rewrite commandMethodMap_lookup, bool_decide_eq_true_2 by done.
  unfold bind at 1, emit, modify, catch, bind at 1. rewrite Hm.
  destruct (origin_resolves this interaction g sent Hg Hk) as [_ Hknown].
  destruct outcome as [[successMsg|]|err]; simpl in *.
  - destruct (bool_decide (successMsg = "")); simpl in *.
    + by rewrite app_nil_r.
    + destruct Hend as [Hsuccess _]. unfold editReply.
      by rewrite (send_delivered _ _ Hsuccess).
  - by rewrite app_nil_r.
  - destruct Hend as (Herr & Hlog & _).
    unfold bind, editReply, detached.
    rewrite (send_delivered _ _ Herr), (sendLogMessage_known _ _ _ Hknown).
    rewrite (send_delivered _ _ Hlog). simpl. by rewrite <- app_assoc.
Qed.

Lemma send_rejects_with_a_send ev sent err :
  settled (send delivery ev sent) = Rejected err -> rejectedSend delivery err.
Proof.
  unfold send. destruct (delivery sent ev) as [e|] eqn:Hd; simpl; [|discriminate].
  intros [= ->]. by exists sent, ev.
Qed.

Lemma process_rejection this interaction g sent err :
  guild interaction = Some g ->
  originKnown this interaction = true ->
  settled (process delivery this interaction sent) = Rejected err ->
  rejectedSend delivery err.
Proof.
  intros Hg Hk. rewrite (process_known this interaction g sent Hg Hk).
  unfold bind at 1, all2, editReply at 1.
  destruct (send delivery (EditReply _) sent) as [[[]|e] sent1] eqn:Hreply.
  2:{ simpl. intros [= ->]. eapply (send_rejects_with_a_send _ sent). by rewrite Hreply. }
  destruct (send delivery (SendLogMessage _ _) sent1) as [[[]|e] sent2] eqn:Hlog.
  2:{ simpl. intros [= ->]. eapply (send_rejects_with_a_send _ sent1). by rewrite Hlog. }
  unfold afterAcknowledgement.
  destruct (commandMethodMap this !! commandName interaction) as [commandMethod|].
  2:{ apply send_rejects_with_a_send. }
  unfold bind at 1, emit, modify, catch.
  assert (forall e s,
             settled ((do! editReply delivery (ErrorEmbed e);
                       detached (sendLogMessage delivery this (guild_id g)
                                   (ErrorLogEmbed e interaction))) s) = Rejected err ->
             rejectedSend delivery err) as Hhandler.
  { intros e s. unfold bind, editReply.
    destruct (send delivery (EditReply (ErrorEmbed e)) s) as [[[]|e'] s'] eqn:Hs.
    - discriminate.
    - simpl. intros [= ->]. eapply (send_rejects_with_a_send _ s). by rewrite Hs. }
  unfold bind at 1.
  destruct (commandMethod interaction (sent2 ++ [ConsoleLog])) as [[[msg|]|e] sent3].
  - destruct (bool_decide (msg = "")); [discriminate|].
    destruct (editReply delivery (SimpleEmbed msg Success) sent3) as [[[]|e] sent4];
      [discriminate|apply Hhandler].
  - discriminate.
  - apply Hhandler.
Qed.

(** X12. For a request from a known server whose command name is a key of
    [commandMethodMap], [process] runs the method once, after the
    acknowledgement and a console line.  When the acknowledgement and what
    follows the method are delivered, [process] resolves, and after the
    method it has sent: the success embed when the method resolved with a
    non-empty message; nothing when the method resolved with [undefined]
    (it has replied itself) or with an empty message; the error embed and
    then an error log to the server when the method rejected.  Whatever
    the command, a rejection of [process] past the origin check is always
    that of a send (the transport's or a log sink's), never the method's
    own. *)
Theorem process_concludes_every_method this interaction g sent :
  guild interaction = Some g ->
  originKnown this interaction = true ->
  (forall outcome sent',
     commandName interaction ∈ commandNames ->
     delivers delivery sent (acknowledgement interaction (guild_id g)) ->
     methods this (commandName interaction) interaction
             (acknowledged interaction (guild_id g) sent ++ [ConsoleLog])
       = (outcome, sent') ->
     delivers delivery sent' (conclusion interaction (guild_id g) outcome) ->
     process delivery this interaction sent =
       (Resolved tt, sent' ++ conclusion interaction (guild_id g) outcome)) /\
  (forall err,
     settled (process delivery this interaction sent) = Rejected err ->
     rejectedSend delivery err).
Proof.
  intros Hg Hk. split.
  - intros outcome sent'. by apply process_concludes.
  - intros err. by apply (process_rejection this interaction g).
Qed.

End WithServers.

Lemma process_unknown_command_is_answered_witness :
  replies (store (process reliable campusDispatcher (requestFrom campus "dance") [])) =
    [ SimpleEmbed "Processing command..." Neutral;
      ErrorEmbed (CommandNotImplementedError "This command does not exist.") ].
Proof.
  assert (commandName (requestFrom campus "dance") ∉ commandNames) as Hno.
  { vm_compute. intros Hin.
    repeat (apply elem_of_cons in Hin as [Hin|Hin]; [discriminate Hin|]).
    by apply elem_of_nil in Hin. }
  rewrite (proj1 (process_unknown_command_is_answered reliable campusDispatcher
                    (requestFrom campus "dance") campus [] eq_refl eq_refl Hno)).
  - reflexivity.
  - vm_compute. tauto.
Defined.

Lemma process_concludes_every_method_witness :
  process reliable campusDispatcher (requestFrom campus "start") [] =
    (Resolved tt,
     acknowledged (requestFrom campus "start") "guild-1" [] ++
     [ConsoleLog; EditReply (SimpleEmbed "done" Success)]).
Proof.
  rewrite (proj1 (process_concludes_every_method reliable campusDispatcher
                    (requestFrom campus "start") campus [] eq_refl eq_refl)
             (Resolved (Some "done"))
             (acknowledged (requestFrom campus "start") "guild-1" [] ++ [ConsoleLog])).
  - reflexivity.
  - vm_compute. do 12 right. left.
  - vm_compute. tauto.
  - reflexivity.
  - vm_compute. tauto.
Defined.

(** ** The [help] method *)

Lemma findHelp_app (l k : list HelpMessage) (commandName : string) :
  findHelp (l ++ k) commandName = orElse (findHelp l commandName) (findHelp k commandName).
Proof.
  unfold findHelp. induction l as [|m l IH]; simpl; [done|].
  by destruct (bool_decide (helpName m = commandName)).
Qed.

Lemma help_run (delivery : Delivery)
    (adminCommandHelpMessages helperCommandHelpMessages
       studentCommandHelpMessages : list HelpMessage)
    (commandName : string) (sent : list Event) :
  help delivery adminCommandHelpMessages helperCommandHelpMessages
       studentCommandHelpMessages commandName sent =
    match findHelp (adminCommandHelpMessages ++ helperCommandHelpMessages ++
                    studentCommandHelpMessages) commandName with
    | Some helpMessage =>
        match delivery sent (EditReply (message helpMessage)) with
        | None => (Resolved None, sent ++ [EditReply (message helpMessage)])
        | Some err => (Rejected err, sent)
        end
    | None => (Rejected (CommandParseError "Command not found."), sent)
    end.
Proof.
  assert (forall helpMessage,
             (do! editReply delivery (message helpMessage);
              resolve (None : option string)) sent =
             match delivery sent (EditReply (message helpMessage)) with
             | None => (Resolved None, sent ++ [EditReply (message helpMessage)])
             | Some err => (Rejected err, sent)
             end) as Hreply.
  { intros helpMessage. unfold bind, editReply, send.
    by destruct (delivery sent (EditReply (message helpMessage))). }
  unfold help. rewrite !findHelp_app.
  destruct (findHelp adminCommandHelpMessages commandName) as [a|]; simpl;
    [apply Hreply|].
  destruct (findHelp helperCommandHelpMessages commandName) as [h|]; simpl;
    [apply Hreply|].
  destruct (findHelp studentCommandHelpMessages commandName); [apply Hreply|done].
Qed.

(** X13. [help] answers with the message of the first entry of that name,
    looking through the admin list, then the helper list, then the student
    list: it sends that message itself and resolves with [undefined], or
    rejects with the transport's error when the transport rejects that
    message.  When no list has an entry of that name it rejects with
    "Command not found." and sends nothing. *)
Theorem help_answers_from_the_first_list (delivery : Delivery)
    (adminCommandHelpMessages helperCommandHelpMessages
       studentCommandHelpMessages : list HelpMessage)
    (commandName : string) (sent : list Event) :
  help delivery adminCommandHelpMessages helperCommandHelpMessages
       studentCommandHelpMessages commandName sent =
    match findHelp (adminCommandHelpMessages ++ helperCommandHelpMessages ++
                    studentCommandHelpMessages) commandName with
    | Some helpMessage =>
        match delivery sent (EditReply (message helpMessage)) with
        | None => (Resolved None, sent ++ [EditReply (message helpMessage)])
        | Some err => (Rejected err, sent)
        end
    | None => (Rejected (CommandParseError "Command not found."), sent)
    end.
Proof. apply help_run. Qed.

Lemma replies_app (sent sent' : list Event) :
  replies (sent ++ sent') = replies sent ++ replies sent'.
Proof. unfold replies. apply omap_app. Qed.

Lemma replies_detached_log (delivery : Delivery)
    {AttendingServerV2 : Type} (this : CentralCommandDispatcher AttendingServerV2)
    (serverId : string) (e : Embed) (sent : list Event) :
  replies (store (detached (sendLogMessage delivery this serverId e) sent)) =
    replies sent.
Proof.
  unfold detached, sendLogMessage, store, send. simpl.
  destruct (serverMap this !! serverId); [|done].
  destruct (delivery sent (SendLogMessage serverId e)); simpl; [done|].
  rewrite replies_app. simpl. apply app_nil_r.
Qed.

(** X14. A "help" request from a known server, handled by [help]: when
    the acknowledgement is delivered and the transport delivers the reply
    that follows, the requester gets exactly two replies, the "Processing
    command..." placeholder and then either the help message found or the
    "Command not found." error embed; the dispatcher does not add a
    success reply of its own after a help message, and [process] resolves
    either way, whether or not the log sink accepts the error log. *)
Theorem help_request_is_answered_once (delivery : Delivery)
    {AttendingServerV2 : Type} (this : CentralCommandDispatcher AttendingServerV2)
    (interaction : ChatInputCommandInteraction) (g : Guild) (sent : list Event)
    (adminCommandHelpMessages helperCommandHelpMessages
       studentCommandHelpMessages : list HelpMessage)
    (requested : string) :
  let answer :=
    match findHelp (adminCommandHelpMessages ++ helperCommandHelpMessages ++
                    studentCommandHelpMessages) requested with
    | Some helpMessage => message helpMessage
    | None => ErrorEmbed (CommandParseError "Command not found.")
    end in
  guild interaction = Some g ->
  originKnown this interaction = true ->
  commandName interaction = "help" ->
  methods this "help" interaction =
    help delivery adminCommandHelpMessages helperCommandHelpMessages
         studentCommandHelpMessages requested ->
  delivers delivery sent (acknowledgement interaction (guild_id g)) ->
  delivery (acknowledged interaction (guild_id g) sent ++ [ConsoleLog])
           (EditReply answer) = None ->
  settled (process delivery this interaction sent) = Resolved tt /\
  replies (store (process delivery this interaction sent)) =
    replies sent ++ [SimpleEmbed "Processing command..." Neutral; answer].
Proof.
  intros answer Hg Hk Hname Hhelp Hack Hanswer.
  assert (commandName interaction ∈ commandNames) as Hin.
  { rewrite Hname. unfold commandNames. do 14 right. left. }
  rewrite (process_acknowledges delivery this interaction g sent Hg Hk Hack).
  unfold afterAcknowledgement.
  rewrite commandMethodMap_lookup, bool_decide_eq_true_2 by done.
  rewrite Hname, Hhelp.
  unfold bind, emit, modify, catch.
  rewrite help_run. subst answer.
  destruct (findHelp _ requested) as [helpMessage|].
  - rewrite Hanswer. split; [reflexivity|].
    unfold store, acknowledged. simpl. rewrite !replies_app. simpl.
    by rewrite <- !app_assoc.
  - unfold editReply. rewrite (send_delivered delivery _ _ Hanswer).
    split; [reflexivity|].
    rewrite replies_detached_log.
    unfold acknowledged. rewrite !replies_app. simpl.
    by rewrite <- !app_assoc.
Qed.

Lemma help_request_is_answered_once_witness :
  replies (store (process reliable campusDispatcher (requestFrom campus "help") [])) =
    [ SimpleEmbed "Processing command..." Neutral;
      SimpleEmbed "How to join a queue" Neutral ].
Proof.
  apply (help_request_is_answered_once reliable campusDispatcher
           (requestFrom campus "help") campus [] [] [] [enqueueHelp] "enqueue"
           eq_refl eq_refl eq_refl eq_refl).
  - vm_compute. tauto.
  - reflexivity.
Defined.

End DispatcherMore.

(** * Further properties of the handler-map composition *)

Module HandlerMapsMore.

Import HandlerMaps HandlerMapsViews HandlerMapsFacts.

Section Combine.
Context {H : Type}.
Implicit Types (base : BaseMaps H) (exts : list (InteractionExtension H)).

Lemma lastContributed_snoc (key : string) (tables : list (gmap string H))
    (table : gmap string H) :
  lastContributed key (tables ++ [table]) =
    match table !! key with
    | Some h => Some h
    | None => lastContributed key tables
    end.
Proof. unfold lastContributed. by rewrite foldl_snoc. Qed.

Lemma lastContributed_contributors (key : string) (tables : list (gmap string H)) :
  lastContributed key tables = last (contributors key tables) ≫= (fun table => table !! key).
Proof.
  induction tables as [|table tables IH] using rev_ind; [done|].
  rewrite lastContributed_snoc. unfold contributors in *.
  rewrite filter_app, filter_cons, filter_nil.
  destruct (decide (is_Some (table !! key))) as [[h Hh]|Hno].
  - rewrite last_snoc. simpl. by rewrite Hh.
  - rewrite app_nil_r, IH. destruct (table !! key) eqn:E; [|done].
    exfalso. apply Hno. eauto.
Qed.

(** The entry of a composed table, for any number of extensions. *)
Lemma completeTable_lookup base exts (slot : Slot) (key : string) :
  completeTable slot (combineMethodMaps base exts) !! key =
    match lastContributed key (map (extensionTable slot) exts) with
    | Some h => Some h
    | None => baseTable slot base !! key
    end.
Proof.
  destruct exts as [|ext0 exts]; [by destruct slot|].
  destruct slot; simpl; rewrite lookup_merged; reflexivity.
Qed.

Lemma lastContributed_is_Some (key : string) (tables : list (gmap string H)) :
  is_Some (lastContributed key tables) <->
  exists table, table ∈ tables /\ is_Some (table !! key).
Proof.
  induction tables as [|table tables IH] using rev_ind.
  - split; [by intros [x Hx]|]. intros (t & Ht & _). by apply elem_of_nil in Ht.
  - rewrite lastContributed_snoc. destruct (table !! key) as [h|] eqn:E.
    + split; [|by eauto]. intros _. exists table. split; [|by eauto].
      apply elem_of_app. right. left.
    + rewrite IH. split.
      * intros (t & Ht & Hs). exists t. split; [|done]. apply elem_of_app. by left.
      * intros (t & Ht & Hs). apply elem_of_app in Ht as [Ht|Ht]; [by eauto|].
        apply list_elem_of_singleton in Ht. subst t. rewrite E in Hs.
        by destruct Hs.
Qed.

(** X15. The composition is a union of entries: a name has a handler in a
    composed table exactly when it has one in the built-in table or in the
    table of some extension.  No name is lost and none is invented,
    whatever the number and order of the extensions. *)
Theorem composed_keys_are_the_union base exts (slot : Slot) (key : string) :
  is_Some (completeTable slot (combineMethodMaps base exts) !! key) <->
  is_Some (baseTable slot base !! key) \/
  exists ext, ext ∈ exts /\ is_Some (extensionTable slot ext !! key).
Proof.
  rewrite completeTable_lookup.
  pose proof (lastContributed_is_Some key (map (extensionTable slot) exts)) as Hl.
  assert ((exists table, table ∈ map (extensionTable slot) exts /\ is_Some (table !! key))
          <-> exists ext, ext ∈ exts /\ is_Some (extensionTable slot ext !! key)) as Hex.
  { split.
    - intros (t & Ht & Hs). apply list_elem_of_fmap in Ht as (ext & -> & Hext). eauto.
    - intros (ext & Hext & Hs). exists (extensionTable slot ext). split; [|done].
      apply list_elem_of_fmap. eauto. }
  rewrite <- Hex, <- Hl.
  destruct (lastContributed key (map (extensionTable slot) exts)) as [h|].
  - split; eauto.
  - split; [by left|]. intros [Hb|[x Hx]]; [done|discriminate].
Qed.

Lemma elem_of_unionSkip (baseSet : gset string) (skipOf : InteractionExtension H -> gset string)
    exts (name : string) :
  name ∈ unionSkip baseSet (map skipOf exts) <->
  name ∈ baseSet \/ exists ext, ext ∈ exts /\ name ∈ skipOf ext.
Proof.
  unfold unionSkip. rewrite elem_of_union, elem_of_union_list. split.
  - intros [Hb|(X & HX & Hn)]; [by left|right].
    apply list_elem_of_fmap in HX as (ext & -> & Hext). eauto.
  - intros [Hb|(ext & Hext & Hn)]; [by left|right].
    exists (skipOf ext). split; [|done]. apply list_elem_of_fmap. eauto.
Qed.

Lemma completeSkip_elem base exts (slot : SkipSlot) (name : string) :
  name ∈ completeSkip slot (combineMethodMaps base exts) <->
  name ∈ baseSkip slot base \/
  exists ext, ext ∈ exts /\ name ∈ extensionSkip slot ext.
Proof.
  destruct exts as [|ext0 exts].
  - destruct slot; simpl; (split; [by left|]);
      (intros [Hb|(ext & Hext & _)]; [done|by apply elem_of_nil in Hext]).
  - destruct slot; simpl.
    + apply (elem_of_unionSkip _
               (fun ext => CommandHandlerProps.skipProgressMessageCommands (commandMap ext))
               (ext0 :: exts)).
    + apply (elem_of_unionSkip _
               (fun ext => ButtonHandlerProps.skipProgressMessageButtons (buttonMap ext))
               (ext0 :: exts)).
    + apply (elem_of_unionSkip _
               (fun ext => SelectMenuHandlerProps.skipProgressMessageSelectMenus
                             (selectMenuMap ext))
               (ext0 :: exts)).
Qed.

(** X16. Each composed skip-progress-message set is the union of the
    built-in set and the sets of all extensions. *)
Theorem composed_skips_are_the_union base exts (slot : SkipSlot) (name : string) :
  name ∈ completeSkip slot (combineMethodMaps base exts) <->
  name ∈ baseSkip slot base \/
  exists ext, ext ∈ exts /\ name ∈ extensionSkip slot ext.
Proof. apply completeSkip_elem. Qed.

(** X17. When no name is brought by two extensions, the order in which the
    extensions are registered does not matter: any reordering of them
    composes to the same table. *)
Theorem disjoint_extensions_compose_in_any_order
    base exts exts' (slot : Slot) :
  extensionsDisjoint slot exts ->
  exts ≡ₚ exts' ->
  completeTable slot (combineMethodMaps base exts) =
  completeTable slot (combineMethodMaps base exts').
Proof.
  intros Hdis Hperm. apply map_eq. intros key.
  rewrite !completeTable_lookup, !lastContributed_contributors.
  assert (contributors key (map (extensionTable slot) exts) =
          contributors key (map (extensionTable slot) exts')) as ->; [|done].
  specialize (Hdis key).
  assert (contributors key (map (extensionTable slot) exts) ≡ₚ
          contributors key (map (extensionTable slot) exts')) as Hp.
  { unfold contributors. by rewrite Hperm. }
  destruct (contributors key (map (extensionTable slot) exts)) as [|t [|t' l]].
  - by apply Permutation_nil_l in Hp.
  - by apply Permutation_singleton_l in Hp.
  - simpl in Hdis. lia.
Qed.

End Combine.

Lemma disjoint_extensions_compose_in_any_order_witness :
  completeTable Commands (combineMethodMaps builtIn [calendarLike; sheetLike]) =
  completeTable Commands (combineMethodMaps builtIn [sheetLike; calendarLike]).
Proof.
  apply disjoint_extensions_compose_in_any_order.
  - intros key. unfold contributors. simpl. rewrite !filter_cons, filter_nil.
    destruct (decide (key = "when_next")) as [->|Hne].
    + rewrite decide_True by (rewrite lookup_singleton_eq; eauto).
      rewrite decide_False; [simpl; lia|].
      rewrite lookup_singleton_ne by done. by intros [x Hx].
    + rewrite decide_False.
      2:{ rewrite lookup_singleton_ne by done. by intros [x Hx]. }
      destruct (decide _); simpl; lia.
  - apply Permutation_swap.
Defined.

End HandlerMapsMore.

(** * Further properties of the interaction processors *)

Module ProcessorsMore.

Import HandlerMaps HandlerMapsViews Processors ProcessorsViews ProcessorsFacts.

Section WithTables.
Variable safeDecompressComponentId :
  string -> option (ComponentType * string * string).
Variable allServers : gmap string AttendingServer.
Variable serverNotFound : Error.
Variable notAHandler : string -> Error.
Variable base : BaseMaps Handler.
Variable interactionExtensions : list (InteractionExtension Handler).

Abbreviation processComponent :=
  (processComponent safeDecompressComponentId allServers serverNotFound
     notAHandler base interactionExtensions).
Abbreviation processChatInputCommand :=
  (processChatInputCommand allServers serverNotFound notAHandler base
     interactionExtensions).
Abbreviation componentHandler := (componentHandler base interactionExtensions).
Abbreviation progressed := (progressed base interactionExtensions).
Abbreviation beforeHandler := (beforeHandler base interactionExtensions).
Abbreviation chatProgressed := (chatProgressed base interactionExtensions).
Abbreviation invoke := (invoke notAHandler).

Lemma processComponent_other_kind c interaction s :
  isComponent c interaction = false ->
  processComponent c interaction s = (Resolved tt, s).
Proof.
  intros Hkind. destruct c; simpl in *;
    unfold processButton, processSelectMenu, processModalSubmit; by rewrite Hkind.
Qed.

Lemma processComponent_no_server c interaction s type componentName serverId :
  isComponent c interaction = true ->
  safeDecompressComponentId (customId interaction)
    = Some (type, componentName, serverId) ->
  allServers !! default serverId (guildId interaction) = None ->
  processComponent c interaction s = (Rejected serverNotFound, s).
Proof.
  intros Hkind Hparse Hserver. destruct c; simpl in *;
    unfold processButton, processSelectMenu, processModalSubmit;
    rewrite Hkind, Hparse; simpl; unfold bind, AttendingServer_get;
    by rewrite Hserver.
Qed.

(** X18. A button, select-menu or form-submission request whose component
    id parses but whose server is not an attended one makes the processor
    reject with the fault of [AttendingServer.get] before anything is
    sent: no log message, no progress reply, no error reply.  Handed a
    request of another kind, the processor resolves without sending
    anything. *)
Theorem component_without_server_rejects_unsent
    (c : Component) (interaction : Interaction) (s : Session) :
  (isComponent c interaction = false ->
     processComponent c interaction s = (Resolved tt, s)) /\
  (forall type componentName serverId,
     isComponent c interaction = true ->
     safeDecompressComponentId (customId interaction)
       = Some (type, componentName, serverId) ->
     allServers !! default serverId (guildId interaction) = None ->
     processComponent c interaction s = (Rejected serverNotFound, s)).
Proof.
  split.
  - apply processComponent_other_kind.
  - intros type componentName serverId.
    apply processComponent_no_server.
Qed.

Lemma beforeHandler_has_no_error c type componentName server interaction :
  existsb isErrorReply (beforeHandler c type componentName server interaction) = false.
Proof.
  unfold Processors.beforeHandler.
  destruct c; simpl; try destruct (bool_decide (componentName ∈ _)); reflexivity.
Qed.

(** X19. A component whose id parses and whose server is known, but for
    whose name no handler is registered, is not answered with an error.
    The processor first sends what it sends before any handler (log-sink
    message, progress reply unless skipped, console line), none of which
    is an error reply.  Then, when the name is not that of a member every
    object inherits, it resolves; when it is one (["constructor"],
    ["toString"], ...), the table read finds that member, calling it as a
    handler throws, and the processor rejects with that [TypeError].
    The transport is taken to deliver the progress reply. *)
Theorem component_without_handler_gets_no_error
    (c : Component) (interaction : Interaction) (s : Session)
    (type : ComponentType) (componentName serverId : string)
    (server : AttendingServer) :
  isComponent c interaction = true ->
  safeDecompressComponentId (customId interaction)
    = Some (type, componentName, serverId) ->
  allServers !! default serverId (guildId interaction) = Some server ->
  (forall handle, componentHandler c type componentName interaction <> Own handle) ->
  processComponent c interaction s =
    (if bool_decide (componentName ∈ objectPrototypeMembers)
     then Rejected (notAHandler componentName) else Resolved tt,
     progressed c type componentName server interaction s) /\
  sent (progressed c type componentName server interaction s) =
    sent s ++ beforeHandler c type componentName server interaction /\
  existsb isErrorReply (beforeHandler c type componentName server interaction) = false.
Proof.
  intros Hkind Hparse Hserver Hnone.
  rewrite (processComponent_parsed safeDecompressComponentId allServers
             serverNotFound notAHandler base interactionExtensions c interaction s
             type componentName serverId server Hkind Hparse Hserver).
  split; [|split; [reflexivity|apply beforeHandler_has_no_error]].
  revert Hnone. unfold Processors.componentHandler.
  destruct c, (inCachedGuild interaction), type; simpl; unfold readProperty;
    match goal with
    | |- context [?m !! componentName] => destruct (m !! componentName) as [handle|]
    end; intros Hnone; try (by destruct (Hnone handle));
    by destruct (bool_decide (componentName ∈ objectPrototypeMembers)).
Qed.

(** X20. The skip sets brought by extensions are honoured: when the name
    of a button or select menu is in the skip set of any attached
    extension, the processor runs what it looked up for that name after
    sending no reply of its own (a log-sink message and a console line
    only) and with [replied] as it found it: nothing of the processor's
    goes through the transport. *)
Theorem extension_skip_set_silences_progress
    (c : Component) (slot : SkipSlot) (interaction : Interaction) (s : Session)
    (type : ComponentType) (componentName serverId : string)
    (server : AttendingServer) (ext : InteractionExtension Handler) :
  skipSlotOf c = Some slot ->
  ext ∈ interactionExtensions ->
  componentName ∈ extensionSkip slot ext ->
  isComponent c interaction = true ->
  safeDecompressComponentId (customId interaction)
    = Some (type, componentName, serverId) ->
  allServers !! default serverId (guildId interaction) = Some server ->
  processComponent c interaction s =
    invoke (componentHandler c type componentName interaction) interaction server
           {| replied := replied s;
              sent := sent s ++ beforeHandler c type componentName server interaction |} /\
  filter (fun ev => userVisible ev = true)
         (beforeHandler c type componentName server interaction) = [].
Proof.
  intros Hslot Hext Hskip Hkind Hparse Hserver.
  assert (componentName ∈ completeSkip slot (combineMethodMaps base interactionExtensions))
    as Hin.
  { apply HandlerMapsMore.completeSkip_elem. right. eauto. }
  rewrite (processComponent_parsed safeDecompressComponentId allServers
             serverNotFound notAHandler base interactionExtensions c interaction s
             type componentName serverId server Hkind Hparse Hserver).
  unfold Processors.progressed, Processors.beforeHandler.
  destruct c; simpl in Hslot; inversion Hslot; subst slot; simpl in Hin;
    unfold completeButtonMap, completeSelectMenuMap;
    rewrite bool_decide_eq_true_2 by exact Hin; simpl;
    by rewrite orb_false_r.
Qed.

Lemma processChatInputCommand_in_guild interaction s server :
  isChatInputCommand interaction = true ->
  inCachedGuild interaction = true ->
  allServers !! default "" (guildId interaction) = Some server ->
  processChatInputCommand interaction s =
    invoke (readProperty
              (CommandHandlerProps.methodMap (completeCommandMap base interactionExtensions))
              (commandName interaction))
           interaction server (chatProgressed server interaction s).
Proof.
  intros Hkind Hguild Hserver. unfold Processors.processChatInputCommand.
  rewrite Hkind, Hguild. simpl.
  unfold bind at 1, AttendingServer_get. rewrite Hserver.
  unfold ProcessorsViews.chatProgressed, sendLogMessage, bind, emit, reply, modify,
    resolve. simpl.
  destruct (bool_decide (commandName interaction ∈ _)); simpl;
    rewrite ?orb_false_r, ?orb_true_r, <- ?app_assoc; reflexivity.
Qed.

(** X21. A slash command: outside a cached guild it is dropped without
    any reply.  Inside one, with its server known, the processor sends its
    progress message and then: when the command name is registered and
    the handler rejects on a repliable interaction, it resolves after
    sending the error, by [editReply] if a reply was already made and by
    an ephemeral [reply] otherwise; when the name is not registered but is
    that of a member every object inherits (["constructor"], ...), it
    rejects with the [TypeError] of calling that member; when the name is
    neither, it resolves after the progress message only, without any
    "not implemented" error.  The transport is taken to deliver the
    replies. *)
Theorem chat_command_paths (interaction : Interaction) (s : Session) :
  isChatInputCommand interaction = true ->
  (inCachedGuild interaction = false ->
     processChatInputCommand interaction s = (Resolved tt, s)) /\
  (forall server,
      inCachedGuild interaction = true ->
      allServers !! default "" (guildId interaction) = Some server ->
      match CommandHandlerProps.methodMap (completeCommandMap base interactionExtensions)
              !! commandName interaction with
      | None =>
          processChatInputCommand interaction s =
            (if bool_decide (commandName interaction ∈ objectPrototypeMembers)
             then Rejected (notAHandler (commandName interaction)) else Resolved tt,
             chatProgressed server interaction s)
      | Some handle =>
          forall err s2,
            isRepliable interaction = true ->
            handle interaction (chatProgressed server interaction s) = (Rejected err, s2) ->
            processChatInputCommand interaction s =
              (Resolved tt, errorReplied err server s2)
      end).
Proof.
  intros Hkind. split.
  - intros Hguild. unfold Processors.processChatInputCommand. by rewrite Hguild.
  - intros server Hguild Hserver.
    rewrite (processChatInputCommand_in_guild interaction s server Hkind Hguild Hserver).
    unfold readProperty.
    destruct (CommandHandlerProps.methodMap _ !! commandName interaction)
      as [handle|].
    + intros err s2 Hrep Hrej. by apply invoke_rejected.
    + by destruct (bool_decide (commandName interaction ∈ objectPrototypeMembers)).
Qed.

End WithTables.

Lemma component_without_server_rejects_unsent_witness :
  processButton alwaysJoin ∅ notFound typeError joinRejects []
    (pressed "join-button") fresh = (Rejected notFound, fresh).
Proof.
  apply (proj2 (component_without_server_rejects_unsent
                  alwaysJoin ∅ notFound typeError joinRejects []
                  ButtonComponent (pressed "join-button") fresh)
           TQueue "join" "guild-1"); reflexivity.
Defined.

Lemma component_without_handler_gets_no_error_witness :
  let r := processButton alwaysJoin {[ "guild-1" := guild1 ]} notFound typeError
             (commandsOnly ∅) [] (pressed "join-button") fresh in
  let r' := processButton alwaysConstructor {[ "guild-1" := guild1 ]} notFound typeError
              (commandsOnly ∅) [] (pressed "constructor-button") fresh in
  (settled r = Resolved tt /\ existsb isErrorReply (sent (store r)) = false) /\
  (settled r' = Rejected (typeError "constructor") /\
   existsb isErrorReply (sent (store r')) = false).
Proof.
  intros r r'. split.
  - destruct (component_without_handler_gets_no_error
                alwaysJoin {[ "guild-1" := guild1 ]} notFound typeError (commandsOnly ∅) []
                ButtonComponent (pressed "join-button") fresh TQueue "join" "guild-1"
                guild1 eq_refl eq_refl (lookup_singleton_eq _ _))
      as (Hrun & Hsent & Hclean).
    + intros handle. vm_compute. discriminate.
    + subst r. simpl in Hrun. rewrite Hrun. split; [reflexivity|].
      unfold store. simpl snd. rewrite Hsent. simpl sent. exact Hclean.
  - destruct (component_without_handler_gets_no_error
                alwaysConstructor {[ "guild-1" := guild1 ]} notFound typeError
                (commandsOnly ∅) []
                ButtonComponent (pressed "constructor-button") fresh TQueue "constructor"
                "guild-1" guild1 eq_refl eq_refl (lookup_singleton_eq _ _))
      as (Hrun & Hsent & Hclean).
    + intros handle. vm_compute. discriminate.
    + subst r'. simpl in Hrun. rewrite Hrun. split; [reflexivity|].
      unfold store. simpl snd. rewrite Hsent. simpl sent. exact Hclean.
Defined.

Lemma extension_skip_set_silences_progress_witness :
  processButton alwaysJoin {[ "guild-1" := guild1 ]} notFound typeError
    joinRejects [quietJoin] (pressed "join-button") fresh =
    (Resolved tt,
     {| replied := true;
        sent := [ SendLogMessage "guild-1" (ButtonLogEmbed "join");
                  Log "logButtonPress";
                  LogExpectedErrors queueClosed;
                  Reply (ErrorEmbed queueClosed "admin-role") true ] |}).
Proof.
  etrans.
  - apply (proj1 (extension_skip_set_silences_progress
                    alwaysJoin {[ "guild-1" := guild1 ]} notFound typeError
                    joinRejects [quietJoin]
                    ButtonComponent ButtonSkips (pressed "join-button") fresh TQueue
                    "join" "guild-1" guild1 quietJoin eq_refl
                    (list_elem_of_here _ _) (proj2 (elem_of_singleton _ _) eq_refl)
                    eq_refl eq_refl (lookup_singleton_eq _ _))).
  - reflexivity.
Defined.

Lemma chat_command_paths_witness :
  let r := processChatInputCommand {[ "guild-1" := guild1 ]} notFound typeError
             startRejects [] (typed "start") fresh in
  settled r = Resolved tt /\ errorReplySent (store r).
Proof.
  intros r.
  destruct (chat_command_paths {[ "guild-1" := guild1 ]} notFound typeError
              startRejects [] (typed "start") fresh eq_refl) as [_ Hin].
  specialize (Hin guild1 eq_refl (lookup_singleton_eq _ _)).
  simpl in Hin.
  rewrite lookup_singleton_eq in Hin.
  specialize (Hin queueClosed _ eq_refl eq_refl).
  subst r. rewrite Hin. split; [reflexivity|].
  exists (EditReply (ErrorEmbed queueClosed "admin-role")). split; [|reflexivity].
  unfold store. simpl. do 4 right. left.
Defined.

End ProcessorsMore.

(** * Properties of the session-calendar extension *)

Module CalendarFacts.

Import Calendar.

(** ** Strings *)

Lemma app_nil (b : string) : "" +:+ b = b.
Proof. reflexivity. Qed.

Lemma app_cons (x : Ascii.ascii) (a b : string) :
  String x a +:+ b = String x (a +:+ b).
Proof. reflexivity. Qed.

Lemma length_app (a b : string) :
  String.length (a +:+ b) = String.length a + String.length b.
Proof.
  induction a as [|c a IH]; rewrite ?app_nil, ?app_cons; simpl; [done|].
  by rewrite IH.
Qed.

Lemma app_assoc_string (a b c : string) : (a +:+ b) +:+ c = a +:+ (b +:+ c).
Proof.
  induction a as [|x a IH]; rewrite ?app_nil, ?app_cons; [done|]. by rewrite IH.
Qed.

Lemma app_empty_r (a : string) : a +:+ "" = a.
Proof.
  induction a as [|x a IH]; rewrite ?app_nil, ?app_cons; [done|]. by rewrite IH.
Qed.

Lemma stake_app (a b : string) : stake (String.length a) (a +:+ b) = a.
Proof.
  induction a as [|x a IH]; rewrite ?app_nil, ?app_cons; simpl.
  - by destruct b.
  - by rewrite IH.
Qed.

Lemma sdrop_app (a b : string) : sdrop (String.length a) (a +:+ b) = b.
Proof.
  induction a as [|x a IH]; rewrite ?app_nil, ?app_cons; simpl; [by destruct b|done].
Qed.

Lemma sdrop_app_S (a : string) (c : Ascii.ascii) (b : string) :
  sdrop (String.length a + 1) (a +:+ String c b) = b.
Proof.
  induction a as [|x a IH]; rewrite ?app_nil, ?app_cons; simpl; [by destruct b|done].
Qed.

Lemma stake_all (s : string) : stake (String.length s) s = s.
Proof. induction s as [|x s IH]; simpl; [done|]. by rewrite IH. Qed.

Lemma stake_0 (s : string) : stake 0 s = "".
Proof. by destruct s. Qed.

Lemma sdrop_0 (s : string) : sdrop 0 s = s.
Proof. by destruct s. Qed.

Lemma findChar_None (c : Ascii.ascii) (s : string) :
  c ∉ chars s -> findChar c s = None.
Proof.
  induction s as [|a s IH]; simpl; [done|]. intros Hno.
  rewrite bool_decide_eq_false_2.
  - rewrite IH; [done|]. intros Hin. apply Hno. by right.
  - intros ->. apply Hno. left.
Qed.

Lemma findChar_first (c : Ascii.ascii) (name rest : string) :
  c ∉ chars name ->
  findChar c (name +:+ String c rest) = Some (String.length name).
Proof.
  induction name as [|a name IH]; rewrite ?app_nil, ?app_cons; simpl; intros Hno.
  - by rewrite bool_decide_eq_true_2.
  - rewrite bool_decide_eq_false_2.
    + rewrite IH; [done|]. intros Hin. apply Hno. by right.
    + intros ->. apply Hno. left.
Qed.

Lemma split_named (interactionName queueName : string) :
  space ∉ chars interactionName ->
  let customId := interactionName +:+ " " +:+ queueName in
  substring customId 0 (indexOf space customId) = interactionName /\
  substringFrom customId (indexOf space customId + 1) = queueName.
Proof.
  intros Hno customId. subst customId.
  set (name := interactionName) in *. set (rest := queueName).
  change (name +:+ " " +:+ rest) with (name +:+ String space rest).
  assert (indexOf space (name +:+ String space rest) = Z.of_nat (String.length name))
    as ->.
  { unfold indexOf. by rewrite findChar_first. }
  unfold substringFrom, substring, clamp.
  rewrite !length_app. simpl String.length.
  replace (Z.to_nat (Z.min (Z.max 0 0) _)) with 0 by lia.
  replace (Z.to_nat (Z.min (Z.max (Z.of_nat (String.length name)) 0) _))
    with (String.length name) by lia.
  replace (Z.to_nat (Z.min (Z.max (Z.of_nat (String.length name) + 1) 0) _))
    with (String.length name + 1) by lia.
  replace (Z.to_nat (Z.min (Z.max (Z.of_nat (String.length name + S (String.length rest))) 0) _))
    with (String.length name + S (String.length rest)) by lia.
  split.
  - rewrite Nat.max_r, Nat.min_l, Nat.sub_0_r, sdrop_0 by lia.
    apply stake_app.
  - rewrite Nat.max_r, Nat.min_l by lia.
    rewrite sdrop_app_S.
    replace (_ - _) with (String.length rest) by lia.
    apply stake_all.
Qed.

Lemma split_unnamed (customId : string) :
  space ∉ chars customId ->
  indexOf space customId = (-1)%Z /\
  substring customId 0 (indexOf space customId) = "" /\
  substringFrom customId (indexOf space customId + 1) = customId.
Proof.
  intros Hno.
  assert (indexOf space customId = (-1)%Z) as Hidx.
  { unfold indexOf. by rewrite findChar_None. }
  rewrite Hidx. split; [done|].
  unfold substringFrom, substring, clamp. simpl Z.add.
  replace (Z.to_nat (Z.min (Z.max (-1) 0) _)) with 0 by lia.
  replace (Z.to_nat (Z.min (Z.max 0 0) _)) with 0 by lia.
  replace (Z.to_nat (Z.min (Z.max (Z.of_nat (String.length customId)) 0) _))
    with (String.length customId) by lia.
  split.
  - simpl. by destruct customId.
  - replace (Z.to_nat (Z.min (Z.max (-1 + 1) 0) _)) with 0 by lia.
    rewrite Nat.max_r, Nat.min_l, Nat.sub_0_r, sdrop_0 by lia.
    apply stake_all.
Qed.

(** ** The button and command processors of the extension *)

Lemma refresh_has_no_space : space ∉ chars "refresh".
Proof.
  simpl. intros Hin.
  repeat (apply elem_of_cons in Hin as [Hin|Hin]; [discriminate Hin|]).
  by apply elem_of_nil in Hin.
Qed.

Section WithTransport.
Variable delivery : Delivery.

Lemma transport_send_delivered ev sent :
  delivery sent ev = None -> send delivery ev sent = (Resolved tt, sent ++ [ev]).
Proof. unfold send. by intros ->. Qed.

Lemma transport_send_rejected ev sent err :
  delivery sent ev = Some err -> send delivery ev sent = (Rejected err, sent).
Proof. unfold send. by intros ->. Qed.

Lemma transport_send_rejects_with_a_send ev sent err :
  settled (send delivery ev sent) = Rejected err -> rejectedSend delivery err.
Proof.
  unfold send. destruct (delivery sent ev) as [e|] eqn:Hd; simpl; [|discriminate].
  intros [= ->]. by exists sent, ev.
Qed.

Lemma processButton_named this interactionName queueName sent :
  space ∉ chars interactionName ->
  processButton delivery this (interactionName +:+ " " +:+ queueName) sent =
    processNamedButton delivery this interactionName queueName sent.
Proof.
  intros Hno. unfold processButton, processNamedButton.
  destruct (split_named interactionName queueName Hno) as [Hname Hqueue].
  by rewrite Hname, Hqueue.
Qed.

Lemma processButton_unnamed this customId sent :
  space ∉ chars customId ->
  processButton delivery this customId sent =
    processNamedButton delivery this "" customId sent.
Proof.
  intros Hno. unfold processButton, processNamedButton.
  destruct (split_unnamed customId Hno) as (_ & Hname & Hqueue).
  by rewrite Hname, Hqueue.
Qed.

(** X22. The calendar button processor splits the id at its first space.
    On a name without a space followed by a space and any text, it looks
    up exactly the name and hands the method found exactly the text,
    further spaces included.  On an id without any space, [indexOf] is
    [-1]: it looks up the empty name and would hand over the whole id. *)
Theorem customId_splits_at_first_space
    (this : CalendarInteractionExtension) (sent : list Event) :
  (forall interactionName queueName,
      space ∉ chars interactionName ->
      processButton delivery this (interactionName +:+ " " +:+ queueName) sent =
        processNamedButton delivery this interactionName queueName sent) /\
  (forall customId,
      space ∉ chars customId ->
      processButton delivery this customId sent =
        processNamedButton delivery this "" customId sent).
Proof.
  split.
  - intros interactionName queueName. apply processButton_named.
  - intros customId. apply processButton_unnamed.
Qed.

Lemma processButton_refresh this queueName sent :
  delivers delivery sent [Reply (SimpleEmbed "Processing button..." Neutral "") true] ->
  processButton delivery this ("refresh " +:+ queueName) sent =
    conclude delivery (requestCalendarRefresh this queueName)
      (sent ++ [Reply (SimpleEmbed "Processing button..." Neutral "") true; ConsoleLog]).
Proof.
  intros [Hreply _].
  change ("refresh " +:+ queueName) with ("refresh" +:+ " " +:+ queueName).
  rewrite (processButton_named this "refresh" queueName sent refresh_has_no_space).
  unfold processNamedButton, bind at 1, reply at 1.
  rewrite (transport_send_delivered _ _ Hreply). unfold buttonMethodMap.
  rewrite list_to_map_cons, lookup_insert_eq. unfold bind at 1. unfold emit at 1, modify at 1.
  by rewrite <- app_assoc.
Qed.

(** X23. The calendar button processor, with a transport that delivers
    the replies named here.  An id without a space, the bare word
    "refresh" included, is answered with the "This external command does
    not exist." error.  The id "refresh " followed by a queue name, which
    may itself contain spaces, asks that queue's listener to refresh: when
    the queue has no listener nothing is refreshed and the success message
    is sent all the same; when the listener rejects, its error is sent
    instead.  In all three cases the processor resolves. *)
Theorem calendar_button_paths
    (this : CalendarInteractionExtension) (sent : list Event) :
  (forall customId,
      space ∉ chars customId ->
      delivers delivery sent
        [ Reply (SimpleEmbed "Processing button..." Neutral "") true;
          EditReply (ErrorEmbed (CommandNotImplementedError
                                   "This external command does not exist.")) ] ->
      processButton delivery this customId sent =
        (Resolved tt,
         sent ++ [ Reply (SimpleEmbed "Processing button..." Neutral "") true;
                   EditReply (ErrorEmbed (CommandNotImplementedError
                                            "This external command does not exist.")) ])) /\
  (forall queueName,
      listeners this ≫= (fun listeners => listeners !! queueName) = None ->
      delivers delivery sent
        [Reply (SimpleEmbed "Processing button..." Neutral "") true] ->
      delivers delivery
        (sent ++ [ Reply (SimpleEmbed "Processing button..." Neutral "") true;
                   ConsoleLog ])
        [EditReply (SimpleEmbed
                      ("Successfully refreshed upcoming hours for " +:+ queueName)
                      Success "")] ->
      processButton delivery this ("refresh " +:+ queueName) sent =
        (Resolved tt,
         sent ++ [ Reply (SimpleEmbed "Processing button..." Neutral "") true;
                   ConsoleLog;
                   EditReply (SimpleEmbed
                                ("Successfully refreshed upcoming hours for " +:+ queueName)
                                Success "") ])) /\
  (forall queueName listener err sent',
      listeners this ≫= (fun listeners => listeners !! queueName) = Some listener ->
      delivers delivery sent
        [Reply (SimpleEmbed "Processing button..." Neutral "") true] ->
      listener (sent ++ [ Reply (SimpleEmbed "Processing button..." Neutral "") true;
                          ConsoleLog ]) = (Rejected err, sent') ->
      delivers delivery sent' [EditReply (ErrorEmbed err)] ->
      processButton delivery this ("refresh " +:+ queueName) sent =
        (Resolved tt, sent' ++ [EditReply (ErrorEmbed err)])).
Proof.
  split; [|split].
  - intros customId Hno (Hreply & Herr & _).
    rewrite (processButton_unnamed this customId sent Hno).
    unfold processNamedButton, bind at 1, reply at 1.
    rewrite (transport_send_delivered _ _ Hreply). unfold buttonMethodMap.
    rewrite list_to_map_cons, lookup_insert_ne by done.
    rewrite list_to_map_nil, lookup_empty.
    unfold editReply. rewrite (transport_send_delivered _ _ Herr). by rewrite <- app_assoc.
  - intros queueName Hnone Hreply [Hsuccess _]. rewrite processButton_refresh by done.
    unfold conclude, requestCalendarRefresh, catch.
    assert (match listeners this with
            | Some listeners =>
                match listeners !! queueName with
                | Some onCalendarExtensionStateChange => onCalendarExtensionStateChange
                | None => resolve tt
                end
            | None => resolve tt
            end = (resolve tt : Task unit)) as ->.
    { destruct (listeners this) as [l|]; simpl in Hnone; [|done].
      by destruct (l !! queueName). }
    unfold bind, resolve. simpl. unfold editReply.
    rewrite (transport_send_delivered _ _ Hsuccess). by rewrite <- app_assoc.
  - intros queueName listener err sent' Hsome Hreply Hrej [Herr _].
    rewrite processButton_refresh by done.
    unfold conclude, requestCalendarRefresh, catch.
    assert (match listeners this with
            | Some listeners =>
                match listeners !! queueName with
                | Some onCalendarExtensionStateChange => onCalendarExtensionStateChange
                | None => resolve tt
                end
            | None => resolve tt
            end = listener) as ->.
    { destruct (listeners this) as [l|]; simpl in Hsome; [|done].
      destruct (l !! queueName); by inversion Hsome. }
    unfold bind. rewrite Hrej. unfold editReply.
    by rewrite (transport_send_delivered _ _ Herr).
Qed.

Lemma conclude_rejection (method : Task (option string)) (sent : list Event) err :
  settled (conclude delivery method sent) = Rejected err -> rejectedSend delivery err.
Proof.
  unfold conclude, catch, bind, editReply.
  destruct (method sent) as [[[successMsg|]|e] sent'].
  - destruct (bool_decide (successMsg = "")); [discriminate|].
    destruct (send delivery (EditReply (SimpleEmbed successMsg Success "")) sent')
      as [[[]|e] sent2] eqn:Hs; [discriminate|].
    apply transport_send_rejects_with_a_send.
  - discriminate.
  - apply transport_send_rejects_with_a_send.
Qed.

Lemma processCommand_rejection this commandName sent err :
  settled (processCommand delivery this commandName sent) = Rejected err ->
  rejectedSend delivery err.
Proof.
  unfold processCommand, bind at 1, reply at 1.
  destruct (send delivery (Reply _ true) sent) as [[[]|e] sent1] eqn:Hs.
  2:{ simpl. intros [= ->]. eapply (transport_send_rejects_with_a_send _ sent). by rewrite Hs. }
  destruct (commandMethodMap this !! commandName) as [commandMethod|].
  - unfold bind at 1, emit at 1, modify at 1. apply conclude_rejection.
  - apply transport_send_rejects_with_a_send.
Qed.

Lemma processButton_rejection this customId sent err :
  settled (processButton delivery this customId sent) = Rejected err ->
  rejectedSend delivery err.
Proof.
  unfold processButton, bind at 1, reply at 1.
  destruct (send delivery (Reply _ true) sent) as [[[]|e] sent1] eqn:Hs.
  2:{ simpl. intros [= ->]. eapply (transport_send_rejects_with_a_send _ sent). by rewrite Hs. }
  destruct (buttonMethodMap this !! _) as [buttonMethod|].
  - unfold bind at 1, emit at 1, modify at 1. apply conclude_rejection.
  - apply transport_send_rejects_with_a_send.
Qed.

(** X24. What the processors of the extension let through.  Whatever a
    command or button method does, its rejection is turned into an error
    reply: a processor rejects only with a rejection of the transport
    itself.  It does so, for one, when the transport rejects the
    "Processing ..." reply it begins with: the processor then rejects with
    the transport's error and nothing has been sent. *)
Theorem calendar_processors_reject_only_with_the_transport
    (this : CalendarInteractionExtension) (input : string) (sent : list Event) :
  (forall err,
     settled (processCommand delivery this input sent) = Rejected err ->
     rejectedSend delivery err) /\
  (forall err,
     settled (processButton delivery this input sent) = Rejected err ->
     rejectedSend delivery err) /\
  (forall err,
     delivery sent (Reply (SimpleEmbed "Processing command..." Neutral "") true)
       = Some err ->
     processCommand delivery this input sent = (Rejected err, sent)) /\
  (forall err,
     delivery sent (Reply (SimpleEmbed "Processing button..." Neutral "") true)
       = Some err ->
     processButton delivery this input sent = (Rejected err, sent)).
Proof.
  split; [|split; [|split]].
  - intros err. apply processCommand_rejection.
  - intros err. apply processButton_rejection.
  - intros err Hreply. unfold processCommand, bind at 1, reply at 1.
    by rewrite (transport_send_rejected _ _ _ Hreply).
  - intros err Hreply. unfold processButton, bind at 1, reply at 1.
    by rewrite (transport_send_rejected _ _ _ Hreply).
Qed.

End WithTransport.

Lemma calendar_button_paths_witness :
  processButton reliable quietGuild "refresh ECS 36A" [] =
    (Resolved tt,
     [ Reply (SimpleEmbed "Processing button..." Neutral "") true;
       ConsoleLog;
       EditReply (SimpleEmbed "Successfully refreshed upcoming hours for ECS 36A"
                              Success "") ]).
Proof.
  apply (proj1 (proj2 (calendar_button_paths reliable quietGuild [])) "ECS 36A").
  - reflexivity.
  - vm_compute. tauto.
  - vm_compute. tauto.
Defined.

(** A press of "refresh" for a queue without listener, over a reliable
    transport and over one that is down. *)
Example refresh_of_a_quiet_queue :
  processButton reliable quietGuild "refresh ECS 36A" [] =
    (Resolved tt,
     [ Reply (SimpleEmbed "Processing button..." Neutral "") true;
       ConsoleLog;
       EditReply (SimpleEmbed "Successfully refreshed upcoming hours for ECS 36A"
                              Success "") ]) /\
  processButton down quietGuild "refresh ECS 36A" [] =
    (Rejected (OtherError "Unknown interaction"), []).
Proof. split; vm_compute; reflexivity. Qed.

(** ** Timestamps of the upcoming-hours embed *)

Lemma pretty_N_go_app (x : N) (s : string) :
  pretty_N_go x s = pretty_N_go x "" +:+ s.
Proof.
  revert s. induction (N.lt_wf_0 x) as [x _ IH]; intros s.
  destruct (decide (x = 0)%N) as [->|Hx].
  - by rewrite !pretty_N_go_0.
  - rewrite (pretty_N_go_step x s), (pretty_N_go_step x "") by lia.
    rewrite (IH (x / 10)%N) by (apply N.div_lt; lia).
    rewrite (IH (x / 10)%N (ltac:(apply N.div_lt; lia))
               (String (pretty_N_char (x mod 10)) "")).
    by rewrite app_assoc_string.
Qed.

Lemma pretty_N_pos (x : N) : (0 < x)%N -> pretty x = pretty_N_go x "".
Proof. intros Hx. unfold pretty, pretty_N. rewrite decide_False; [done|lia]. Qed.

Lemma pretty_N_thousands (x : N) :
  (1000 <= x)%N ->
  exists c2 c1 c0,
    pretty x = pretty (x / 1000)%N +:+ String c2 (String c1 (String c0 "")).
Proof.
  intros Hx.
  assert (0 < x / 10)%N as H1 by (apply N.div_str_pos; lia).
  assert (0 < x / 10 / 10)%N as H2.
  { apply N.div_str_pos. split; [lia|]. apply N.div_le_lower_bound; lia. }
  assert (x / 10 / 10 / 10 = x / 1000)%N as H3.
  { by rewrite !N.Div0.div_div. }
  assert (0 < x / 1000)%N as H4 by (apply N.div_str_pos; lia).
  eexists _, _, _.
  rewrite (pretty_N_pos x) by lia.
  rewrite (pretty_N_go_step x) by lia.
  rewrite (pretty_N_go_step (x / 10)) by done.
  rewrite (pretty_N_go_step (x / 10 / 10)) by done.
  rewrite H3, pretty_N_go_app, <- pretty_N_pos by done.
  reflexivity.
Qed.

Lemma pretty_N_short (x : N) : (x < 1000)%N -> String.length (pretty x) <= 3.
Proof.
  intros Hx. destruct (decide (x = 0)%N) as [->|H0]; [simpl; lia|].
  rewrite (pretty_N_pos x) by lia.
  rewrite (pretty_N_go_step x) by lia.
  destruct (decide (x / 10 = 0)%N) as [->|H1].
  { rewrite pretty_N_go_0. simpl. lia. }
  rewrite (pretty_N_go_step (x / 10)) by by apply N.neq_0_lt_0.
  destruct (decide (x / 10 / 10 = 0)%N) as [->|H2].
  { rewrite pretty_N_go_0. simpl. lia. }
  rewrite (pretty_N_go_step (x / 10 / 10)) by by apply N.neq_0_lt_0.
  assert (x / 10 / 10 / 10 = 0)%N as ->.
  { rewrite !N.Div0.div_div. by apply N.div_small. }
  rewrite pretty_N_go_0. simpl. lia.
Qed.

Lemma pretty_Z_of_N (n : N) : pretty (Z.of_N n) = pretty n.
Proof. by destruct n. Qed.

Lemma slice0_drops_three (p : string) (c2 c1 c0 : Ascii.ascii) :
  slice0 (p +:+ String c2 (String c1 (String c0 ""))) (-3) = p.
Proof.
  unfold slice0. rewrite length_app. simpl.
  replace (Z.to_nat _) with (String.length p) by lia.
  apply stake_app.
Qed.

Lemma slice0_short (s : string) : String.length s <= 3 -> slice0 s (-3) = "".
Proof.
  intros Hs. unfold slice0. simpl.
  replace (Z.to_nat _) with 0 by lia. by destruct s.
Qed.

(** X25. The timestamp written into the upcoming-hours embed: for a time
    of at least one second after the epoch, dropping the last three
    characters of the millisecond count gives exactly the count of whole
    seconds, so that the text is [<t:SECONDS:R>].  For a time within the
    first second the millisecond count has at most three digits, all of
    them are dropped, and the text is [<t::R>], without any number. *)
Theorem relativeTimestamp_is_in_seconds (time : Z) :
  ((1000 <= time)%Z ->
     relativeTimestamp time = "<t:" +:+ pretty (time / 1000)%Z +:+ ":R>") /\
  ((0 <= time < 1000)%Z -> relativeTimestamp time = "<t::R>").
Proof.
  unfold relativeTimestamp. split.
  - intros Ht.
    assert (time = Z.of_N (Z.to_N time)) as Hn by lia.
    destruct (pretty_N_thousands (Z.to_N time) ltac:(lia)) as (c2 & c1 & c0 & Hp).
    assert ((time / 1000)%Z = Z.of_N (Z.to_N time / 1000)%N) as Hd.
    { rewrite N2Z.inj_div. by rewrite <- Hn. }
    rewrite Hd, pretty_Z_of_N. rewrite Hn at 1. rewrite pretty_Z_of_N, Hp.
    by rewrite slice0_drops_three.
  - intros Ht.
    assert (time = Z.of_N (Z.to_N time)) as Hn by lia.
    rewrite Hn, pretty_Z_of_N, slice0_short; [done|].
    apply pretty_N_short. lia.
Qed.

(** A session that starts on 14 November 2023 at 22:13:20.123 UTC. *)
Example relativeTimestamp_of_a_session :
  relativeTimestamp 1700000000123 = "<t:1700000000:R>".
Proof. vm_compute. reflexivity. Qed.

End CalendarFacts.
